(** * Bech32 public-key codec of cosmjs (pubkey.ts)

    A shallow embedding of [decodeBech32Pubkey] and [encodeBech32Pubkey]
    together with the constants they use, and the properties of the
    two functions.

    Conventions.
    - A [Uint8Array] is a [list byte].
    - A JavaScript string is a [string].
    - A function that may [throw new Error(msg)] returns a [result]:
      [Ok v] for a normal return, [Throw msg] for the thrown message.
    - The packages that pubkey.ts imports and that are not part of the
      repository ([Bech32] and the base64 half of [Encoding]) are
      interfaces ([Class]es): the theorems about the two functions hold
      for any implementation.  A reference implementation of each is
      given, proved lossless, and used to run the functions on concrete
      strings. *)

From Stdlib Require Import String Ascii List ZArith NArith Bool Lia.
From Stdlib.Strings Require Import Byte.
Import ListNotations.

Local Open Scope string_scope.
Local Open Scope list_scope.

(** ** Exceptions *)

Inductive result (A : Type) : Type :=
| Ok (v : A)
| Throw (msg : string).

Arguments Ok {A} v.
Arguments Throw {A} msg.

Definition bind {A B : Type} (r : result A) (k : A -> result B) : result B :=
  match r with
  | Ok v => k v
  | Throw msg => Throw msg
  end.

Notation "'let*' x ':=' r 'in' k" := (bind r (fun x => k))
  (at level 10, x pattern, r at level 100, k at level 200).

Definition valueOf {A : Type} (d : A) (r : result A) : A :=
  match r with
  | Ok v => v
  | Throw _ => d
  end.

(** ** Byte arrays *)

Definition bytes : Type := list byte.

(** [Array.prototype.slice] index normalisation: a negative index counts
    from the end, and every index is clamped to [0 .. len]. *)
Definition relativeIndex (len i : Z) : Z :=
  if (i <? 0)%Z then Z.max (len + i) 0 else Z.min i len.

(** [a.slice(start, end)]; [a.slice(start)] is [slice a start None]. *)
Definition slice (a : bytes) (start : Z) (end_ : option Z) : bytes :=
  let len := Z.of_nat (length a) in
  let k := relativeIndex len start in
  let final := match end_ with
               | None => len
               | Some e => relativeIndex len e
               end in
  let count := Z.max (final - k) 0 in
  firstn (Z.to_nat count) (skipn (Z.to_nat k) a).

(** [equal] of fast-deep-equal on two [Uint8Array]s: same length and the
    same byte at every index. *)
Fixpoint equal (a b : bytes) : bool :=
  match a, b with
  | [], [] => true
  | x :: a', y :: b' => Byte.eqb x y && equal a' b'
  | _, _ => false
  end.

(** [Array.prototype.join]. *)
Fixpoint join (sep : string) (l : list string) : string :=
  match l with
  | [] => ""
  | [s] => s
  | s :: l' => s ++ sep ++ join sep l'
  end.

(** [Array.prototype.includes] on an array of strings. *)
Definition includes (l : list string) (s : string) : bool :=
  existsb (String.eqb s) l.

(** ** Hexadecimal text ([Encoding.toHex], [Encoding.fromHex]) *)

Module Encoding.

Definition hexDigits : list ascii := list_ascii_of_string "0123456789abcdef".

Definition hexDigit (n : N) : ascii := nth (N.to_nat n) hexDigits "0"%char.

Definition toHex (data : bytes) : string :=
  string_of_list_ascii
    (flat_map (fun b => [hexDigit (N.div (Byte.to_N b) 16);
                         hexDigit (N.modulo (Byte.to_N b) 16)]) data).

Definition hexValue (c : ascii) : option N :=
  let n := N_of_ascii c in
  if (48 <=? n)%N && (n <=? 57)%N then Some (n - 48)%N
  else if (97 <=? n)%N && (n <=? 102)%N then Some (n - 87)%N
  else if (65 <=? n)%N && (n <=? 70)%N then Some (n - 55)%N
  else None.

Fixpoint fromHexChars (l : list ascii) : result bytes :=
  match l with
  | [] => Ok []
  | h :: l0 :: rest =>
      match hexValue h, hexValue l0 with
      | Some hv, Some lv =>
          match Byte.of_N (16 * hv + lv) with
          | Some b => let* tl := fromHexChars rest in Ok (b :: tl)
          | None => Throw "hex string contains invalid characters"
          end
      | _, _ => Throw "hex string contains invalid characters"
      end
  | [_] => Throw "hex string length must be a multiple of 2"
  end.

Definition fromHex (hexstring : string) : result bytes :=
  if Nat.even (String.length hexstring)
  then fromHexChars (list_ascii_of_string hexstring)
  else Throw "hex string length must be a multiple of 2".

End Encoding.

(** ** Imported interfaces *)

(** The base64 half of [Encoding]. *)
Class Base64 : Type := {
  toBase64 : bytes -> string;
  fromBase64 : string -> result bytes
}.

(** [Bech32.encode(prefix, data)] and [Bech32.decode(address)]. *)
Class Bech32 : Type := {
  Bech32_encode : string -> bytes -> result string;
  Bech32_decode : string -> result (string * bytes)
}.

(** [Secp256k1.compressPubkey] of the crypto package. *)
Class Secp256k1 : Type := {
  compressPubkey : bytes -> result bytes
}.

(** ** Reference implementations of the imported interfaces

    Executable instances of [Base64] (RFC 4648, with padding) and of
    [Bech32] (BIP-173: the conversion between bytes and 5-bit words, and
    the checksummed text with its limit of 90 characters). *)

Module Rfc4648.

Definition alphabet : list ascii :=
  list_ascii_of_string
    "ABCDEFGHIJKLMNOPQRSTUVWXYZabcdefghijklmnopqrstuvwxyz0123456789+/".

Definition digit (n : N) : ascii := nth (N.to_nat n) alphabet "A"%char.

Fixpoint encodeChunks (l : list N) : list ascii :=
  match l with
  | a :: b :: c :: rest =>
      digit (a / 4) :: digit ((a mod 4) * 16 + b / 16)
        :: digit ((b mod 16) * 4 + c / 64) :: digit (c mod 64)
        :: encodeChunks rest
  | [a; b] =>
      [digit (a / 4); digit ((a mod 4) * 16 + b / 16);
       digit ((b mod 16) * 4); "="%char]
  | [a] => [digit (a / 4); digit ((a mod 4) * 16); "="%char; "="%char]
  | [] => []
  end%N.

Definition toBase64 (data : bytes) : string :=
  string_of_list_ascii (encodeChunks (map Byte.to_N data)).

Definition digitValue (c : ascii) : option N :=
  let n := N_of_ascii c in
  if (65 <=? n)%N && (n <=? 90)%N then Some (n - 65)%N
  else if (97 <=? n)%N && (n <=? 122)%N then Some (n - 71)%N
  else if (48 <=? n)%N && (n <=? 57)%N then Some (n + 4)%N
  else if (n =? 43)%N then Some 62%N
  else if (n =? 47)%N then Some 63%N
  else None.

Definition byteOf (n : N) : byte :=
  match Byte.of_N (n mod 256) with
  | Some b => b
  | None => x00
  end.

Definition invalid {A : Type} : result A := Throw "Invalid base64 string format".

Fixpoint decodeChunks (l : list ascii) : result bytes :=
  match l with
  | [] => Ok []
  | c1 :: c2 :: c3 :: c4 :: rest =>
      match digitValue c1, digitValue c2 with
      | Some v1, Some v2 =>
          let b1 := byteOf (v1 * 4 + v2 / 16) in
          match digitValue c3, digitValue c4 with
          | Some v3, Some v4 =>
              let* tl := decodeChunks rest in
              Ok (b1 :: byteOf ((v2 mod 16) * 16 + v3 / 4)
                     :: byteOf ((v3 mod 4) * 64 + v4) :: tl)
          | Some v3, None =>
              if Ascii.eqb c4 "=" && match rest with [] => true | _ => false end
              then Ok [b1; byteOf ((v2 mod 16) * 16 + v3 / 4)]
              else invalid
          | None, _ =>
              if Ascii.eqb c3 "=" && Ascii.eqb c4 "="
                 && match rest with [] => true | _ => false end
              then Ok [b1]
              else invalid
          end
      | _, _ => invalid
      end
  | _ => invalid
  end%N.

Definition fromBase64 (base64String : string) : result bytes :=
  decodeChunks (list_ascii_of_string base64String).

End Rfc4648.

Module Bip173.

Local Open Scope Z_scope.

Definition ALPHABET : list ascii :=
  list_ascii_of_string "qpzry9x8gf2tvdw0s3jn54khce6mua7l".

Definition alphabetChar (v : Z) : ascii := nth (Z.to_nat v) ALPHABET "q"%char.

Fixpoint indexOf (c : ascii) (l : list ascii) (i : Z) : option Z :=
  match l with
  | [] => None
  | x :: l' => if Ascii.eqb x c then Some i else indexOf c l' (i + 1)
  end.

Definition ALPHABET_MAP (c : ascii) : option Z := indexOf c ALPHABET 0.

Definition charCode (c : ascii) : Z := Z.of_N (N_of_ascii c).

Definition generator (b : Z) (i : Z) (g : Z) : Z :=
  if Z.testbit b i then g else 0.

Definition polymodStep (pre : Z) : Z :=
  let b := Z.shiftr pre 25 in
  Z.lxor (Z.shiftl (Z.land pre 33554431) 5)
    (Z.lxor (generator b 0 996825010)
       (Z.lxor (generator b 1 642813549)
          (Z.lxor (generator b 2 513874426)
             (Z.lxor (generator b 3 1027748829)
                     (generator b 4 705979059))))).

Definition prefixChk (prefix : list ascii) : result Z :=
  let* chk :=
    fold_left
      (fun acc c =>
         let* chk := acc in
         if (charCode c <? 33) || (126 <? charCode c)
         then Throw "Invalid prefix"
         else Ok (Z.lxor (polymodStep chk) (Z.shiftr (charCode c) 5)))
      prefix (Ok 1) in
  Ok (fold_left
        (fun chk c => Z.lxor (polymodStep chk) (Z.land (charCode c) 31))
        prefix (polymodStep chk)).

Definition lowerChar (c : ascii) : ascii :=
  let n := N_of_ascii c in
  if (65 <=? n)%N && (n <=? 90)%N then ascii_of_N (n + 32) else c.

Definition upperChar (c : ascii) : ascii :=
  let n := N_of_ascii c in
  if (97 <=? n)%N && (n <=? 122)%N then ascii_of_N (n - 32) else c.

Definition checksumWords (chk : Z) : list Z :=
  map (fun i => Z.land (Z.shiftr chk ((5 - i) * 5)) 31) [0; 1; 2; 3; 4; 5].

(** One iteration of the loop of [encode] over the words. *)
Definition encodeWord (acc : result (Z * list ascii)) (x : Z)
  : result (Z * list ascii) :=
  let* (chk, out) := acc in
  if negb (Z.shiftr x 5 =? 0) then Throw "Non 5-bit word"
  else Ok (Z.lxor (polymodStep chk) x, out ++ [alphabetChar x]).

Definition encode (prefix : string) (words : list Z) : result string :=
  if 90 <? Z.of_nat (String.length prefix) + 7 + Z.of_nat (length words)
  then Throw "Exceeds length limit"
  else
    let prefix := map lowerChar (list_ascii_of_string prefix) in
    let* chk := prefixChk prefix in
    let* (chk, out) := fold_left encodeWord words (Ok (chk, prefix ++ ["1"%char])) in
    let chk := Z.lxor (Nat.iter 6 polymodStep chk) 1 in
    Ok (string_of_list_ascii (out ++ map alphabetChar (checksumWords chk))).

Fixpoint lastIndexOf (c : ascii) (l : list ascii) (i : nat) (found : option nat)
  : option nat :=
  match l with
  | [] => found
  | x :: l' => lastIndexOf c l' (S i) (if Ascii.eqb x c then Some i else found)
  end.

Fixpoint readWords (wordChars : list ascii) (chk : Z) (words : list Z)
  : result (Z * list Z) :=
  match wordChars with
  | [] => Ok (chk, words)
  | c :: rest =>
      match ALPHABET_MAP c with
      | None => Throw "Unknown character"
      | Some v =>
          readWords rest (Z.lxor (polymodStep chk) v)
            (if (length rest <? 6)%nat then words else words ++ [v])
      end
  end.

Definition decode (str : string) : result (string * list Z) :=
  let chars := list_ascii_of_string str in
  if (length chars <? 8)%nat then Throw "String too short"
  else if (90 <? length chars)%nat then Throw "Exceeds length limit"
  else
    let lowered := map lowerChar chars in
    let uppered := map upperChar chars in
    if negb (String.eqb str (string_of_list_ascii lowered))
       && negb (String.eqb str (string_of_list_ascii uppered))
    then Throw "Mixed-case string"
    else
      match lastIndexOf "1" lowered 0 None with
      | None => Throw "No separator character"
      | Some O => Throw "Missing prefix"
      | Some split =>
          let prefix := firstn split lowered in
          let wordChars := skipn (S split) lowered in
          if (length wordChars <? 6)%nat then Throw "Data too short"
          else
            let* chk := prefixChk prefix in
            let* (chk, words) := readWords wordChars chk [] in
            if negb (chk =? 1) then Throw "Invalid checksum"
            else Ok (string_of_list_ascii prefix, words)
      end.

(** The inner [while (bits >= outBits)] loop of [convert]; [fuel] bounds
    the number of iterations, which is at most [bits]. *)
Fixpoint drain (fuel : nat) (value bits outBits : Z) (out : list Z)
  : Z * list Z :=
  match fuel with
  | O => (bits, out)
  | S fuel' =>
      if outBits <=? bits
      then drain fuel' value (bits - outBits) outBits
             (out ++ [Z.land (Z.shiftr value (bits - outBits))
                        (Z.shiftl 1 outBits - 1)])
      else (bits, out)
  end.

(** One iteration of the outer loop of [convert]; the accumulator is kept
    to 32 bits, as the integer it is in JavaScript. *)
Definition convertStep (inBits outBits : Z) (st : Z * Z * list Z) (d : Z)
  : Z * Z * list Z :=
  let '(value, bits, out) := st in
  let value := Z.land (Z.lor (Z.shiftl value inBits) d) 4294967295 in
  let bits := bits + inBits in
  let (bits, out) := drain (Z.to_nat bits) value bits outBits out in
  (value, bits, out).

Definition convert (data : list Z) (inBits outBits : Z) (pad : bool)
  : result (list Z) :=
  let maxV := Z.shiftl 1 outBits - 1 in
  let '(value, bits, out) := fold_left (convertStep inBits outBits) data (0, 0, []) in
  if pad then
    Ok (if 0 <? bits
        then out ++ [Z.land (Z.shiftl value (outBits - bits)) maxV]
        else out)
  else if inBits <=? bits then Throw "Excess padding"
  else if negb (Z.land (Z.shiftl value (outBits - bits)) maxV =? 0)
  then Throw "Non-zero padding"
  else Ok out.

Definition toWords (data : bytes) : result (list Z) :=
  convert (map (fun b => Z.of_N (Byte.to_N b)) data) 8 5 true.

Definition fromWords (words : list Z) : result bytes :=
  let* l := convert words 5 8 false in
  Ok (map (fun v => Rfc4648.byteOf (Z.to_N v)) l).

Definition Bech32_encode (prefix : string) (data : bytes) : result string :=
  let* words := toWords data in
  encode prefix words.

Definition Bech32_decode (address : string) : result (string * bytes) :=
  let* (prefix, words) := decode address in
  let* data := fromWords words in
  Ok (prefix, data).

End Bip173.

#[export] Instance rfc4648 : Base64 := {|
  toBase64 := Rfc4648.toBase64;
  fromBase64 := Rfc4648.fromBase64
|}.

#[export] Instance bip173 : Bech32 := {|
  Bech32_encode := Bip173.Bech32_encode;
  Bech32_decode := Bip173.Bech32_decode
|}.

(** A reference [Secp256k1.compressPubkey], for compressed keys and valid
    uncompressed points only: a 33-byte key is returned as it is; a
    65-byte key 04 X Y whose coordinates are below the field prime and
    satisfy the curve equation Y^2 = X^3 + 7 becomes 02 X or 03 X by the
    parity of Y; every other input is an error. *)
Module Sec1.

(** The prime of the field of secp256k1. *)
Definition fieldPrime : Z := (2 ^ 256 - 2 ^ 32 - 977)%Z.

(** The number a big-endian byte string stands for. *)
Definition toNumber (l : bytes) : Z :=
  fold_left (fun acc b => (acc * 256 + Z.of_N (Byte.to_N b))%Z) l 0%Z.

Definition onCurve (x y : Z) : bool :=
  ((x <? fieldPrime) && (y <? fieldPrime)
   && ((y * y) mod fieldPrime =? (x * x * x + 7) mod fieldPrime))%Z.

Definition compressPubkey (pubkey : bytes) : result bytes :=
  if (length pubkey =? 33)%nat then Ok pubkey
  else if (length pubkey =? 65)%nat then
    match pubkey with
    | x04 :: xy =>
        let x := firstn 32 xy in
        let y := skipn 32 xy in
        if onCurve (toNumber x) (toNumber y)
        then Ok ((if Z.odd (toNumber y) then x03 else x02) :: x)
        else Throw "Invalid point"
    | _ => Throw "Unknown point format"
    end
  else Throw "Invalid pubkey length".

End Sec1.

#[export] Instance sec1 : Secp256k1 := {|
  compressPubkey := Sec1.compressPubkey
|}.

(** ** types.ts *)

(** Modelled from the spec: [pubkeyType] of ./types, which is not among the
    sources.  The spec gives the algorithm tag as the closed enumeration
    secp256k1, ed25519, sr25519. *)
Inductive pubkeyType : Type :=
| secp256k1
| ed25519
| sr25519.

(** [PubKey]: the algorithm tag and the base64 text of the key bytes. *)
Record PubKey : Type := mkPubKey {
  type : pubkeyType;
  value : string
}.

(** [Bech32PubKey] is a string. *)
Definition Bech32PubKey : Type := string.

(** ** pubkey.ts *)

Definition validPubkeyPrefixes : list string :=
  ["cosmospub"; "cosmosvalconspub"; "cosmosvaloperpub"].

Definition isCosmosPubkeyBech32Prefix (prefix : string) : bool :=
  includes validPubkeyPrefixes prefix.

Definition pubkeyAminoPrefixSecp256k1 : bytes :=
  Eval cbv in valueOf [] (Encoding.fromHex "eb5ae98721").
Definition pubkeyAminoPrefixEd25519 : bytes :=
  Eval cbv in valueOf [] (Encoding.fromHex "1624de6420").
Definition pubkeyAminoPrefixSr25519 : bytes :=
  Eval cbv in valueOf [] (Encoding.fromHex "0dfb1005").
Definition pubkeyAminoPrefixLength : Z :=
  Z.of_nat (length pubkeyAminoPrefixSecp256k1).

Section Pubkey.

Context {base64 : Base64} {bech32 : Bech32}.

Definition decodeBech32Pubkey (bech : Bech32PubKey) : result PubKey :=
  let* (prefix, data) := Bech32_decode bech in
  if negb (isCosmosPubkeyBech32Prefix prefix) then
    Throw ("Invalid bech32 prefix. Must be one of "
           ++ join ", " validPubkeyPrefixes ++ ".")
  else
    let aminoPrefix := slice data 0 (Some pubkeyAminoPrefixLength) in
    let rest := slice data pubkeyAminoPrefixLength None in
    if equal aminoPrefix pubkeyAminoPrefixSecp256k1 then
      if negb (length rest =? 33)%nat then
        Throw "Invalid rest data length. Expected 33 bytes (compressed secp256k1 pubkey)."
      else
        Ok {| type := secp256k1; value := toBase64 rest |}
    else if equal aminoPrefix pubkeyAminoPrefixEd25519 then
      if negb (length rest =? 32)%nat then
        Throw "Invalid rest data length. Expected 32 bytes (Ed25519 pubkey)."
      else
        Ok {| type := ed25519; value := toBase64 rest |}
    else if equal aminoPrefix pubkeyAminoPrefixSr25519 then
      if negb (length rest =? 32)%nat then
        Throw "Invalid rest data length. Expected 32 bytes (Sr25519 pubkey)."
      else
        Ok {| type := sr25519; value := toBase64 rest |}
    else
      Throw ("Unsupported Pubkey type. Amino prefix: " ++ Encoding.toHex aminoPrefix).

Definition encodeBech32Pubkey (pubkey : PubKey) (prefix : string) : result Bech32PubKey :=
  let* aminoPrefix :=
    match type pubkey with
    | secp256k1 => Ok pubkeyAminoPrefixSecp256k1
    | _ => Throw "Unsupported pubkey type"
    end in
  let* keyBytes := fromBase64 (value pubkey) in
  let data := aminoPrefix ++ keyBytes in
  Bech32_encode prefix data.

End Pubkey.

Section RawPubkey.

Context {crypto : Secp256k1} {base64 : Base64}.

Definition encodeSecp256k1Pubkey (pubkey : bytes) : result PubKey :=
  let* compressed := compressPubkey pubkey in
  Ok {| type := secp256k1; value := toBase64 compressed |}.

End RawPubkey.

(** ** Test vectors *)

(** A compressed secp256k1 key (33 bytes), and its bech32 text under
    [cosmospub]. *)
Definition testKey : bytes :=
  Eval cbv in valueOf [] (Rfc4648.fromBase64 "A08EGB7ro1ORuFhjOnZcSgwYlpe0DSFjVNUIkNNQxwKQ").

Definition testKeyBech32 : string :=
  "cosmospub1addwnpepqd8sgxq7aw348ydctp3n5ajufgxp395hksxjzc6565yfp56scupfqhlgyg5".

(** The sr25519 constant followed by a 32-byte key, under [cosmospub]. *)
Definition sr25519Bech32 : string :=
  "cosmospub1pha3qpgqqqqqqqqqqqqqqqqqqqqqqqqqqqqqqqqqqqqqqqqqqqqqqqqqqqsfq7ww".

(** The ed25519 constant followed by a 32-byte key, under [cosmospub]. *)
Definition ed25519Bech32 : string :=
  "cosmospub1zcjduepqqqqqqqqqqqqqqqqqqqqqqqqqqqqqqqqqqqqqqqqqqqqqqqqqqqqqw9qaxn".

(** The secp256k1 constant followed by 32 bytes, under [cosmosvaloperpub]. *)
Definition shortKeyBech32 : string :=
  "cosmosvaloperpub1addwnpepqqqqqqqqqqqqqqqqqqqqqqqqqqqqqqqqqqqqqqqqqqqqqqqqqqqqk05zae".

(** Five bytes 01 02 03 04 05 followed by 33 bytes, under [cosmospub]. *)
Definition unknownMarkerBech32 : string :=
  "cosmospub1qypqxpq9qqqqqqqqqqqqqqqqqqqqqqqqqqqqqqqqqqqqqqqqqqqqqqqqqqqqqv8n9wm".

(** An account address: a valid bech32 string whose prefix is [cosmos]. *)
Definition addressBech32 : string :=
  "cosmos1pkptre7fdkl6gfrzlesjjvhxhlc3r4gmmk8rs6".

(** The empty payload, under [cosmosvalconspub]. *)
Definition emptyBech32 : string := "cosmosvalconspub16yg80j".

(** [testKey] under [cosmosvalconspub]. *)
Definition testKeyValconsBech32 : string :=
  "cosmosvalconspub1addwnpepqd8sgxq7aw348ydctp3n5ajufgxp395hksxjzc6565yfp56scupfqcneerj".

(** [testKeyBech32] in upper case. *)
Definition testKeyBech32Upper : string :=
  "COSMOSPUB1ADDWNPEPQD8SGXQ7AW348YDCTP3N5AJUFGXP395HKSXJZC6565YFP56SCUPFQHLGYG5".

(** The generator of secp256k1 as an uncompressed point (65 bytes). *)
Definition generatorPoint : bytes :=
  Eval cbv in valueOf []
    (Encoding.fromHex "0479be667ef9dcbbac55a06295ce870b07029bfcdb2dce28d959f2815b16f81798483ada7726a3c4655da4fbfc0e1108a8fd17b448a68554199c47d08ffb10d4b8").

(** ** Notions used to reason about the reference [Bech32] *)

Module Bip173Spec.
Import Bip173.
Local Open Scope Z_scope.

(** The number whose digits, of [w] bits each and most significant first,
    are [l]. *)
Definition num (w : Z) (l : list Z) : Z :=
  fold_left (fun acc d => acc * 2 ^ w + d) l 0.

(** Every element of [l] is a [w]-bit digit. *)
Definition digits (w : Z) (l : list Z) : Prop :=
  Forall (fun x => 0 <= x < 2 ^ w) l.

(** What the outer loop has established after reading [seen]. *)
Definition convertInv (i o : Z) (seen : list Z) (st : Z * Z * list Z) : Prop :=
  let '(value, bits, out) := st in
  0 <= bits < o /\ digits o out /\
  o * Z.of_nat (length out) + bits = i * Z.of_nat (length seen) /\
  num o out * 2 ^ bits + value mod 2 ^ bits = num i seen.

(** The number a byte stands for. *)
Definition byteValue (b : byte) : Z := Z.of_N (Byte.to_N b).

(** One step of the checksum over a word, as in [encodeWord] and
    [readWords]. *)
Definition absorb (chk v : Z) : Z := Z.lxor (polymodStep chk) v.

(** What [encode] and [decode] need of a prefix: it is not empty, is in
    lower case, has no separator character, and its checksum is defined. *)
Definition prefixOk (prefix : list ascii) : bool :=
  negb (length prefix =? 0)%nat
  && forallb (fun c => Ascii.eqb (lowerChar c) c) prefix
  && forallb (fun c => negb (Ascii.eqb c "1")) prefix
  && match prefixChk prefix with Ok _ => true | Throw _ => false end.

(** What [encode] and [decode] need of the character of a 5-bit word. *)
Definition wordOk (v : Z) : bool :=
  match ALPHABET_MAP (alphabetChar v) with
  | Some v' => v' =? v
  | None => false
  end
  && Ascii.eqb (lowerChar (alphabetChar v)) (alphabetChar v)
  && negb (Ascii.eqb (alphabetChar v) "1").

End Bip173Spec.

(** ** Facts about the array helpers *)

Lemma equal_spec (a b : bytes) : equal a b = true <-> a = b.
Proof.
  revert b; induction a as [|x a IH]; intros [|y b]; simpl;
    try (split; [discriminate | congruence]); try tauto.
  rewrite andb_true_iff, IH. split.
  - intros [Hxy ->]. now rewrite (Byte.byte_dec_bl _ _ Hxy).
  - intros [= -> ->]. split; [now apply Byte.byte_dec_lb | reflexivity].
Qed.

Lemma equal_refl (a : bytes) : equal a a = true.
Proof. now apply equal_spec. Qed.

Lemma equal_neq (a b : bytes) : a <> b -> equal a b = false.
Proof.
  intros Hne. destruct (equal a b) eqn:E; [|reflexivity].
  now apply equal_spec in E.
Qed.

Lemma includes_spec (l : list string) (s : string) :
  includes l s = true <-> In s l.
Proof.
  unfold includes. rewrite existsb_exists. split.
  - intros (x & Hin & Heq). apply String.eqb_eq in Heq. now subst.
  - intros Hin. exists s. split; [assumption | apply String.eqb_refl].
Qed.

Lemma includes_false (l : list string) (s : string) :
  ~ In s l -> includes l s = false.
Proof.
  intros Hnot. destruct (includes l s) eqn:E; [|reflexivity].
  now apply includes_spec in E.
Qed.

(** [a.slice(0, n)] is the first [n] elements, or all of [a] when it is
    shorter: no index beyond the end is read. *)
Lemma slice_prefix (a : bytes) (n : Z) :
  (0 <= n)%Z -> slice a 0 (Some n) = firstn (Z.to_nat n) a.
Proof.
  intros Hn. unfold slice, relativeIndex.
  destruct (Z.ltb_spec n 0) as [Hlt|_]; [lia|].
  change (0 <? 0)%Z with false. cbv iota.
  replace (Z.to_nat (Z.min 0 (Z.of_nat (length a)))) with 0%nat by lia.
  cbn [skipn].
  destruct (Z.le_gt_cases n (Z.of_nat (length a))) as [Hle|Hgt].
  - f_equal. lia.
  - rewrite !firstn_all2 by lia. reflexivity.
Qed.

(** [a.slice(n)] drops the first [n] elements, and is empty when [a] has
    no more than [n]. *)
Lemma slice_suffix (a : bytes) (n : Z) :
  (0 <= n)%Z -> slice a n None = skipn (Z.to_nat n) a.
Proof.
  intros Hn. unfold slice, relativeIndex.
  destruct (Z.ltb_spec n 0) as [Hlt|_]; [lia|].
  destruct (Z.le_gt_cases n (Z.of_nat (length a))) as [Hle|Hgt].
  - replace (Z.to_nat (Z.min n (Z.of_nat (length a)))) with (Z.to_nat n) by lia.
    apply firstn_all2. rewrite length_skipn. lia.
  - rewrite (skipn_all2 (n := Z.to_nat n)) by lia.
    rewrite skipn_all2 by lia. apply firstn_nil.
Qed.

Lemma pubkeyAminoPrefixLength_eq : pubkeyAminoPrefixLength = 5%Z.
Proof. reflexivity. Qed.

Lemma slice_aminoPrefix (data : bytes) :
  slice data 0 (Some pubkeyAminoPrefixLength) = firstn 5 data.
Proof. rewrite pubkeyAminoPrefixLength_eq. now rewrite slice_prefix by lia. Qed.

Lemma slice_rest (data : bytes) :
  slice data pubkeyAminoPrefixLength None = skipn 5 data.
Proof. rewrite pubkeyAminoPrefixLength_eq. now rewrite slice_suffix by lia. Qed.

(** The constants are what [Encoding.fromHex] returns for their literals. *)
Lemma pubkeyAminoPrefix_fromHex :
  Encoding.fromHex "eb5ae98721" = Ok pubkeyAminoPrefixSecp256k1 /\
  Encoding.fromHex "1624de6420" = Ok pubkeyAminoPrefixEd25519 /\
  Encoding.fromHex "0dfb1005" = Ok pubkeyAminoPrefixSr25519.
Proof. repeat split. Qed.

Lemma firstn_marker (marker payload : bytes) :
  length marker = 5%nat -> firstn 5 (marker ++ payload) = marker.
Proof.
  intros Hlen. rewrite firstn_app, Hlen, Nat.sub_diag, firstn_0.
  rewrite firstn_all2 by lia. apply app_nil_r.
Qed.

Lemma skipn_marker (marker payload : bytes) :
  length marker = 5%nat -> skipn 5 (marker ++ payload) = payload.
Proof.
  intros Hlen. rewrite skipn_app, Hlen, Nat.sub_diag, skipn_O.
  now rewrite skipn_all2 by lia.
Qed.

(** The 5-byte slice equals the 4-byte sr25519 constant only when the whole
    array is that constant. *)
Lemma firstn_sr25519 (data : bytes) :
  firstn 5 data = pubkeyAminoPrefixSr25519 <-> data = pubkeyAminoPrefixSr25519.
Proof.
  split; [|now intros ->].
  intros Heq.
  destruct (Nat.le_gt_cases 5 (length data)) as [Hge|Hlt].
  - apply (f_equal (@length byte)) in Heq.
    rewrite length_firstn in Heq.
    change (length pubkeyAminoPrefixSr25519) with 4%nat in Heq. lia.
  - now rewrite firstn_all2 in Heq by lia.
Qed.

(** ** The decoder, one branch at a time *)

Section Decoder.

Context {base64 : Base64} {bech32 : Bech32}.

Variables (bech prefix : string) (data : bytes).
Hypothesis Hdecode : Bech32_decode bech = Ok (prefix, data).

Lemma decode_invalid_prefix :
  ~ In prefix validPubkeyPrefixes ->
  decodeBech32Pubkey bech =
  Throw "Invalid bech32 prefix. Must be one of cosmospub, cosmosvalconspub, cosmosvaloperpub.".
Proof.
  intros Hnot. unfold decodeBech32Pubkey. rewrite Hdecode. cbn [bind].
  unfold isCosmosPubkeyBech32Prefix. now rewrite includes_false.
Qed.

Hypothesis Hprefix : In prefix validPubkeyPrefixes.

(** After the prefix check the result is a function of [data] alone. *)
Lemma decode_valid_prefix :
  decodeBech32Pubkey bech =
  if equal (firstn 5 data) pubkeyAminoPrefixSecp256k1 then
    if negb (length (skipn 5 data) =? 33)%nat then
      Throw "Invalid rest data length. Expected 33 bytes (compressed secp256k1 pubkey)."
    else Ok {| type := secp256k1; value := toBase64 (skipn 5 data) |}
  else if equal (firstn 5 data) pubkeyAminoPrefixEd25519 then
    if negb (length (skipn 5 data) =? 32)%nat then
      Throw "Invalid rest data length. Expected 32 bytes (Ed25519 pubkey)."
    else Ok {| type := ed25519; value := toBase64 (skipn 5 data) |}
  else if equal (firstn 5 data) pubkeyAminoPrefixSr25519 then
    if negb (length (skipn 5 data) =? 32)%nat then
      Throw "Invalid rest data length. Expected 32 bytes (Sr25519 pubkey)."
    else Ok {| type := sr25519; value := toBase64 (skipn 5 data) |}
  else
    Throw ("Unsupported Pubkey type. Amino prefix: " ++ Encoding.toHex (firstn 5 data)).
Proof.
  unfold decodeBech32Pubkey. rewrite Hdecode. cbn [bind].
  unfold isCosmosPubkeyBech32Prefix.
  rewrite (proj2 (includes_spec _ _) Hprefix). cbn [negb].
  cbv zeta. now rewrite slice_aminoPrefix, slice_rest.
Qed.

Lemma decode_secp256k1 :
  firstn 5 data = pubkeyAminoPrefixSecp256k1 ->
  decodeBech32Pubkey bech =
  if (length (skipn 5 data) =? 33)%nat
  then Ok {| type := secp256k1; value := toBase64 (skipn 5 data) |}
  else Throw "Invalid rest data length. Expected 33 bytes (compressed secp256k1 pubkey).".
Proof.
  intros Hm. rewrite decode_valid_prefix, Hm, equal_refl.
  now destruct (_ =? _)%nat.
Qed.

Lemma decode_ed25519 :
  firstn 5 data = pubkeyAminoPrefixEd25519 ->
  decodeBech32Pubkey bech =
  if (length (skipn 5 data) =? 32)%nat
  then Ok {| type := ed25519; value := toBase64 (skipn 5 data) |}
  else Throw "Invalid rest data length. Expected 32 bytes (Ed25519 pubkey).".
Proof.
  intros Hm. rewrite decode_valid_prefix, Hm.
  change (equal pubkeyAminoPrefixEd25519 pubkeyAminoPrefixSecp256k1) with false.
  rewrite equal_refl. now destruct (_ =? _)%nat.
Qed.

Lemma decode_sr25519 :
  firstn 5 data = pubkeyAminoPrefixSr25519 ->
  decodeBech32Pubkey bech =
  Throw "Invalid rest data length. Expected 32 bytes (Sr25519 pubkey).".
Proof.
  intros Hm. rewrite decode_valid_prefix.
  rewrite (proj1 (firstn_sr25519 _) Hm). reflexivity.
Qed.

Lemma decode_unknown :
  firstn 5 data <> pubkeyAminoPrefixSecp256k1 ->
  firstn 5 data <> pubkeyAminoPrefixEd25519 ->
  firstn 5 data <> pubkeyAminoPrefixSr25519 ->
  decodeBech32Pubkey bech =
  Throw ("Unsupported Pubkey type. Amino prefix: " ++ Encoding.toHex (firstn 5 data)).
Proof.
  intros H1 H2 H3. rewrite decode_valid_prefix.
  now rewrite !equal_neq by assumption.
Qed.

(** A constant followed by a payload, as the decoder sees it. *)
Lemma decode_tagged_secp256k1 (payload : bytes) :
  data = pubkeyAminoPrefixSecp256k1 ++ payload ->
  length payload = 33%nat ->
  decodeBech32Pubkey bech = Ok {| type := secp256k1; value := toBase64 payload |}.
Proof.
  intros Hd Hlen. rewrite decode_secp256k1 by (rewrite Hd; now apply firstn_marker).
  rewrite Hd, skipn_marker by reflexivity. now rewrite Hlen.
Qed.

Lemma decode_tagged_ed25519 (payload : bytes) :
  data = pubkeyAminoPrefixEd25519 ++ payload ->
  length payload = 32%nat ->
  decodeBech32Pubkey bech = Ok {| type := ed25519; value := toBase64 payload |}.
Proof.
  intros Hd Hlen. rewrite decode_ed25519 by (rewrite Hd; now apply firstn_marker).
  rewrite Hd, skipn_marker by reflexivity. now rewrite Hlen.
Qed.

(** The sr25519 constant is one byte short of the split, so the marker
    the decoder compares takes in the first byte of the payload. *)
Lemma decode_tagged_sr25519 (b : byte) (payload : bytes) :
  data = pubkeyAminoPrefixSr25519 ++ b :: payload ->
  decodeBech32Pubkey bech =
  Throw ("Unsupported Pubkey type. Amino prefix: "
         ++ Encoding.toHex (pubkeyAminoPrefixSr25519 ++ [b])).
Proof.
  intros Hd.
  assert (Hm : firstn 5 data = pubkeyAminoPrefixSr25519 ++ [b])
    by (rewrite Hd; reflexivity).
  rewrite <- Hm. apply decode_unknown; rewrite Hm.
  - intros [=].
  - intros [=].
  - intros Heq. apply (f_equal (@length byte)) in Heq. discriminate Heq.
Qed.

End Decoder.

(** ** The reference codecs are lossless *)

Module Rfc4648Facts.
Import Rfc4648.

Ltac euclid := zify; Z.to_euclidean_division_equations; lia.

Lemma digitValue_digit (n : N) : (n < 64)%N -> digitValue (digit n) = Some n.
Proof.
  intros Hn.
  assert (H : forallb (fun m => match digitValue (digit m) with
                                | Some v => N.eqb v m
                                | None => false
                                end)
                (map N.of_nat (seq 0 64)) = true) by (vm_compute; reflexivity).
  rewrite forallb_forall in H.
  assert (Hin : In n (map N.of_nat (seq 0 64))).
  { apply in_map_iff. exists (N.to_nat n). split; [lia|]. apply in_seq. lia. }
  specialize (H n Hin).
  destruct (digitValue (digit n)) as [v|]; [|discriminate H].
  f_equal. now apply N.eqb_eq.
Qed.

Lemma byteOf_to_N (x : byte) (n : N) : n = Byte.to_N x -> byteOf n = x.
Proof.
  intros ->. unfold byteOf.
  rewrite N.mod_small by (pose proof (Byte.to_N_bounded x); lia).
  now rewrite Byte.of_to_N.
Qed.

(** Induction on a list three elements at a time. *)
Lemma list_ind3 {A : Type} (P : list A -> Prop) :
  P [] -> (forall a, P [a]) -> (forall a b, P [a; b]) ->
  (forall a b c l, P l -> P (a :: b :: c :: l)) ->
  forall l, P l.
Proof.
  intros H0 H1 H2 H3.
  assert (H : forall l, P l /\ (forall a, P (a :: l)) /\ (forall a b, P (a :: b :: l))).
  { induction l as [|x l (IH0 & IH1 & IH2)]; repeat split; auto. }
  intros l. apply H.
Qed.

Lemma decodeChunks_encodeChunks (data : bytes) :
  decodeChunks (encodeChunks (map Byte.to_N data)) = Ok data.
Proof.
  induction data as [|x|x y|x y z data IH] using list_ind3.
  - reflexivity.
  - pose proof (Byte.to_N_bounded x) as Hx. cbn [map encodeChunks decodeChunks].
    rewrite !digitValue_digit by euclid. cbn.
    now rewrite (byteOf_to_N x) by euclid.
  - pose proof (Byte.to_N_bounded x) as Hx. pose proof (Byte.to_N_bounded y) as Hy.
    cbn [map encodeChunks decodeChunks].
    rewrite !digitValue_digit by euclid. cbn.
    rewrite (byteOf_to_N x) by euclid. now rewrite (byteOf_to_N y) by euclid.
  - pose proof (Byte.to_N_bounded x) as Hx. pose proof (Byte.to_N_bounded y) as Hy.
    pose proof (Byte.to_N_bounded z) as Hz.
    cbn [map encodeChunks decodeChunks].
    rewrite !digitValue_digit by euclid. rewrite IH. cbn [bind].
    rewrite (byteOf_to_N x) by euclid. rewrite (byteOf_to_N y) by euclid.
    now rewrite (byteOf_to_N z) by euclid.
Qed.

Theorem fromBase64_toBase64 (data : bytes) : fromBase64 (toBase64 data) = Ok data.
Proof.
  unfold fromBase64, toBase64.
  rewrite list_ascii_of_string_of_list_ascii. apply decodeChunks_encodeChunks.
Qed.

End Rfc4648Facts.

Module Bip173Facts.
Import Bip173 Bip173Spec.
Local Open Scope Z_scope.

Lemma testbit_small (d i n : Z) :
  0 <= d < 2 ^ i -> i <= n -> Z.testbit d n = false.
Proof.
  intros Hd Hn.
  destruct (Z.lt_ge_cases i 0) as [Hi|Hi].
  - rewrite Z.pow_neg_r in Hd by assumption. lia.
  - rewrite <- (Z.mod_small d (2 ^ i)) by assumption.
    apply Z.mod_pow2_bits_high. lia.
Qed.

Lemma land_shiftl_small (v i d : Z) :
  0 <= i -> 0 <= d < 2 ^ i -> Z.land (Z.shiftl v i) d = 0.
Proof.
  intros Hi Hd. apply Z.bits_inj'. intros n Hn.
  rewrite Z.land_spec, Z.bits_0.
  destruct (Z.lt_ge_cases n i) as [Hlt|Hge].
  - now rewrite Z.shiftl_spec_low.
  - rewrite (testbit_small d i n) by assumption. apply andb_false_r.
Qed.

Lemma lxor_shiftl_add (v i d : Z) :
  0 <= i -> 0 <= d < 2 ^ i -> Z.lxor (Z.shiftl v i) d = v * 2 ^ i + d.
Proof.
  intros Hi Hd. rewrite <- Z.add_nocarry_lxor by now apply land_shiftl_small.
  now rewrite Z.shiftl_mul_pow2.
Qed.

Lemma lor_shiftl_add (v i d : Z) :
  0 <= i -> 0 <= d < 2 ^ i -> Z.lor (Z.shiftl v i) d = v * 2 ^ i + d.
Proof.
  intros Hi Hd. rewrite <- Z.lxor_lor by now apply land_shiftl_small.
  now apply lxor_shiftl_add.
Qed.

Lemma mod_pow2_split (v a b : Z) :
  0 <= a -> 0 <= b ->
  v mod 2 ^ (a + b) = (v / 2 ^ b) mod 2 ^ a * 2 ^ b + v mod 2 ^ b.
Proof.
  intros Ha Hb. rewrite Z.pow_add_r by assumption.
  rewrite (Z.mul_comm (2 ^ a)), Z.rem_mul_r by lia. lia.
Qed.

Lemma mod_pow2_shift (v d a b : Z) :
  0 <= a -> 0 <= b -> 0 <= d < 2 ^ b ->
  (v * 2 ^ b + d) mod 2 ^ (a + b) = v mod 2 ^ a * 2 ^ b + d.
Proof.
  intros Ha Hb Hd. rewrite mod_pow2_split by assumption.
  assert (Hpos : 0 < 2 ^ b) by lia.
  rewrite Z.div_add_l, Z.div_small, Z.add_0_r by lia.
  rewrite (Z.add_comm (v * 2 ^ b) d), Z.mod_add, (Z.mod_small d) by lia.
  reflexivity.
Qed.

Lemma num_app (w : Z) (l : list Z) (x : Z) :
  num w (l ++ [x]) = num w l * 2 ^ w + x.
Proof. unfold num. now rewrite fold_left_app. Qed.

Lemma digits_app (w : Z) (l : list Z) (x : Z) :
  digits w l -> 0 <= x < 2 ^ w -> digits w (l ++ [x]).
Proof. intros Hl Hx. apply Forall_app. split; [assumption | now constructor]. Qed.

(** The inner loop moves whole output digits from the accumulator to the
    output, leaving fewer than [o] bits. *)
Lemma drain_spec (o : Z) (fuel : nat) :
  0 < o ->
  forall value bits out,
    0 <= bits -> bits <= Z.of_nat fuel -> digits o out ->
    exists bits' out',
      drain fuel value bits o out = (bits', out') /\
      0 <= bits' < o /\ digits o out' /\
      o * Z.of_nat (length out') + bits' = o * Z.of_nat (length out) + bits /\
      num o out' * 2 ^ bits' + value mod 2 ^ bits' =
      num o out * 2 ^ bits + value mod 2 ^ bits.
Proof.
  intros Ho. induction fuel as [|fuel IH]; intros value bits out Hb Hfuel Hout.
  - exists bits, out. cbn [drain]. repeat split; try assumption; lia.
  - cbn [drain]. destruct (Z.leb_spec o bits) as [Hle|Hgt].
    + set (w := Z.land (Z.shiftr value (bits - o)) (Z.shiftl 1 o - 1)).
      assert (Hw : w = (value / 2 ^ (bits - o)) mod 2 ^ o).
      { unfold w. rewrite Z.shiftl_1_l, Z.sub_1_r, <- Z.ones_equiv.
        rewrite Z.land_ones, Z.shiftr_div_pow2 by lia. reflexivity. }
      assert (Hwb : 0 <= w < 2 ^ o) by (rewrite Hw; apply Z.mod_pos_bound; lia).
      destruct (IH value (bits - o) (out ++ [w])) as (bits' & out' & Hd & Hb' & Ho' & Hlen & Hnum);
        [lia | lia | now apply digits_app |].
      exists bits', out'. repeat split; try assumption; try lia.
      * rewrite Hlen, length_app. cbn [length]. lia.
      * rewrite Hnum, num_app.
        pose proof (mod_pow2_split value o (bits - o)) as Hsplit.
        replace (o + (bits - o)) with bits in Hsplit by lia.
        rewrite Hsplit, <- Hw by lia.
        replace (2 ^ bits) with (2 ^ o * 2 ^ (bits - o))
          by (rewrite <- Z.pow_add_r by lia; f_equal; lia).
        ring.
    + exists bits, out. repeat split; try assumption; lia.
Qed.

Lemma convertStep_inv (i o : Z) (seen : list Z) (st : Z * Z * list Z) (d : Z) :
  0 < i -> 0 < o -> i + o <= 32 ->
  convertInv i o seen st -> 0 <= d < 2 ^ i ->
  convertInv i o (seen ++ [d]) (convertStep i o st d).
Proof.
  intros Hi Ho Hio Hinv Hd. destruct st as [[value bits] out].
  destruct Hinv as (Hb & Hout & Hlen & Hnum).
  unfold convertStep.
  set (value' := Z.land (Z.lor (Z.shiftl value i) d) 4294967295).
  assert (Hv : value' mod 2 ^ (bits + i) = value mod 2 ^ bits * 2 ^ i + d).
  { unfold value'. change 4294967295 with (Z.ones 32).
    rewrite Z.land_ones, lor_shiftl_add by lia.
    rewrite Z.mod_mod_divide.
    - apply mod_pow2_shift; lia.
    - exists (2 ^ (32 - (bits + i))). rewrite <- Z.pow_add_r by lia. f_equal. lia. }
  destruct (drain_spec o (Z.to_nat (bits + i)) Ho value' (bits + i) out)
    as (bits' & out' & Hdr & Hb' & Ho' & Hlen' & Hnum'); [lia | lia | assumption |].
  rewrite Hdr. unfold convertInv. repeat split; try assumption; try lia.
  - rewrite Hlen', length_app. cbn [length]. lia.
  - rewrite Hnum', Hv, num_app, <- Hnum, Z.pow_add_r by lia. ring.
Qed.

Lemma convert_fold_inv (i o : Z) (data seen : list Z) (st : Z * Z * list Z) :
  0 < i -> 0 < o -> i + o <= 32 ->
  convertInv i o seen st -> digits i data ->
  convertInv i o (seen ++ data) (fold_left (convertStep i o) data st).
Proof.
  intros Hi Ho Hio. revert seen st.
  induction data as [|d data IH]; intros seen st Hinv Hdata.
  - now rewrite app_nil_r.
  - cbn [fold_left]. replace (seen ++ d :: data) with ((seen ++ [d]) ++ data)
      by now rewrite <- app_assoc.
    inversion Hdata; subst. apply IH; [|assumption].
    now apply convertStep_inv.
Qed.

Lemma num_acc (w : Z) (l : list Z) (acc : Z) :
  0 <= w ->
  fold_left (fun a d => a * 2 ^ w + d) l acc
  = acc * 2 ^ (w * Z.of_nat (length l)) + num w l.
Proof.
  intros Hw. unfold num. revert acc.
  induction l as [|x l IH]; intros acc.
  - cbn [fold_left length Z.of_nat]. rewrite Z.mul_0_r, Z.pow_0_r. lia.
  - cbn [fold_left]. rewrite IH, (IH (0 * 2 ^ w + x)).
    replace (w * Z.of_nat (length (x :: l))) with (w + w * Z.of_nat (length l))
      by (cbn [length]; lia).
    rewrite Z.pow_add_r by lia. ring.
Qed.

Lemma num_cons (w x : Z) (l : list Z) :
  0 <= w -> num w (x :: l) = x * 2 ^ (w * Z.of_nat (length l)) + num w l.
Proof.
  intros Hw. unfold num at 1. cbn [fold_left]. rewrite num_acc by assumption.
  ring.
Qed.

Lemma num_bound (w : Z) (l : list Z) :
  0 <= w -> digits w l -> 0 <= num w l < 2 ^ (w * Z.of_nat (length l)).
Proof.
  intros Hw. induction 1 as [|x l Hx Hl IH].
  - cbn. lia.
  - rewrite num_cons by assumption.
    replace (w * Z.of_nat (length (x :: l))) with (w + w * Z.of_nat (length l))
      by (cbn [length]; lia).
    rewrite Z.pow_add_r by lia. nia.
Qed.

Lemma num_inj (w : Z) (l1 l2 : list Z) :
  0 <= w -> digits w l1 -> digits w l2 -> length l1 = length l2 ->
  num w l1 = num w l2 -> l1 = l2.
Proof.
  intros Hw Hl1. revert l2.
  induction Hl1 as [|x l1 Hx Hl1 IH]; intros [|y l2] Hl2 Hlen Hnum;
    try discriminate Hlen; [reflexivity|].
  inversion Hl2 as [|? ? Hy Hl2']; subst.
  injection Hlen as Hlen.
  rewrite !num_cons, <- Hlen in Hnum by assumption.
  pose proof (num_bound w l1 Hw Hl1) as B1.
  pose proof (num_bound w l2 Hw Hl2') as B2.
  rewrite <- Hlen in B2.
  assert (Hxy : x = y) by nia.
  subst y. f_equal. apply IH; [assumption | assumption | lia].
Qed.

Lemma convertInv_init (i o : Z) : 0 < o -> convertInv i o [] (0, 0, []).
Proof. intros Ho. cbn. repeat split; try lia. constructor. Qed.

Lemma digits_bytes (data : bytes) : digits 8 (map byteValue data).
Proof.
  apply Forall_forall. intros x Hin. apply in_map_iff in Hin.
  destruct Hin as (b & <- & _). unfold byteValue.
  pose proof (Byte.to_N_bounded b). change (2 ^ 8) with 256. lia.
Qed.

(** [toWords] regroups the bits of the bytes into 5-bit words, padded on
    the right with [k] zero bits. *)
Lemma toWords_spec (data : bytes) :
  exists words k,
    toWords data = Ok words /\ digits 5 words /\ 0 <= k < 5 /\
    5 * Z.of_nat (length words) = 8 * Z.of_nat (length data) + k /\
    num 5 words = num 8 (map byteValue data) * 2 ^ k.
Proof.
  unfold toWords, convert. fold byteValue.
  pose proof (convert_fold_inv 8 5 (map byteValue data) [] (0, 0, [])) as Hinv.
  cbn [app] in Hinv.
  destruct (fold_left (convertStep 8 5) (map byteValue data) (0, 0, []))
    as [[value bits] out].
  destruct Hinv as (Hb & Hout & Hlen & Hnum);
    [lia | lia | lia | now apply convertInv_init | apply digits_bytes |].
  rewrite length_map in Hlen.
  destruct (Z.ltb_spec 0 bits) as [Hpos|Hzero].
  - set (pad := Z.land (Z.shiftl value (5 - bits)) (Z.shiftl 1 5 - 1)).
    assert (Hpad : pad = value mod 2 ^ bits * 2 ^ (5 - bits)).
    { unfold pad. change (Z.shiftl 1 5 - 1) with (Z.ones 5).
      rewrite Z.land_ones, Z.shiftl_mul_pow2 by lia.
      replace 5 with (bits + (5 - bits)) at 2 by lia.
      replace (value * 2 ^ (5 - bits)) with (value * 2 ^ (5 - bits) + 0) by lia.
      rewrite mod_pow2_shift by lia. lia. }
    exists (out ++ [pad]), (5 - bits). split; [reflexivity|].
    assert (Hr : 0 <= value mod 2 ^ bits < 2 ^ bits) by (apply Z.mod_pos_bound; lia).
    assert (Hpow : 2 ^ 5 = 2 ^ bits * 2 ^ (5 - bits))
      by (rewrite <- Z.pow_add_r by lia; f_equal; lia).
    repeat split; try lia.
    + apply digits_app; [assumption|]. rewrite Hpad. nia.
    + rewrite length_app. cbn [length]. lia.
    + rewrite num_app, Hpad, <- Hnum, Hpow. ring.
  - exists out, 0. split; [reflexivity|].
    assert (bits = 0) by lia. subst bits.
    repeat split; try assumption; try lia.
    rewrite <- Hnum. cbn. rewrite Z.mod_1_r. lia.
Qed.

Lemma bytes_of_values (data : bytes) :
  map (fun v => Rfc4648.byteOf (Z.to_N v)) (map byteValue data) = data.
Proof.
  rewrite map_map. rewrite <- (map_id data) at 2. apply map_ext.
  intros b. unfold byteValue. rewrite N2Z.id.
  now apply Rfc4648Facts.byteOf_to_N.
Qed.

(** [fromWords] undoes [toWords]. *)
Theorem fromWords_toWords (data : bytes) :
  exists words,
    toWords data = Ok words /\ fromWords words = Ok data /\
    digits 5 words /\
    Z.of_nat (length words) <= (8 * Z.of_nat (length data) + 4) / 5.
Proof.
  destruct (toWords_spec data) as (words & k & Hto & Hdig & Hk & Hlen & Hnum).
  exists words. split; [assumption|].
  split; [|split; [assumption|]].
  2:{ apply Z.div_le_lower_bound; lia. }
  unfold fromWords, convert.
  pose proof (convert_fold_inv 5 8 words [] (0, 0, [])) as Hinv.
  cbn [app] in Hinv.
  destruct (fold_left (convertStep 5 8) words (0, 0, [])) as [[value bits] out].
  destruct Hinv as (Hb & Hout & Hlen' & Hnum');
    [lia | lia | lia | now apply convertInv_init | assumption |].
  assert (Hbits : bits = k) by lia.
  assert (Hlenout : length out = length (map byteValue data))
    by (rewrite length_map; lia).
  subst bits.
  assert (Hr : 0 <= value mod 2 ^ k < 2 ^ k) by (apply Z.mod_pos_bound; lia).
  assert (Heq : num 8 out = num 8 (map byteValue data)).
  { assert (H1 : (num 8 out * 2 ^ k + value mod 2 ^ k) / 2 ^ k = num 8 out)
      by (rewrite Z.div_add_l, Z.div_small by lia; lia).
    rewrite Hnum', Hnum, Z.div_mul in H1 by lia. now symmetry. }
  assert (Hzero : value mod 2 ^ k = 0) by (rewrite Heq in Hnum'; lia).
  apply num_inj in Heq; [| lia | assumption | apply digits_bytes | assumption].
  destruct (Z.leb_spec 5 k) as [Hbad|_]; [lia|].
  assert (Hpadz : Z.land (Z.shiftl value (8 - k)) (Z.shiftl 1 8 - 1) = 0).
  { change (Z.shiftl 1 8 - 1) with (Z.ones 8).
    rewrite Z.land_ones, Z.shiftl_mul_pow2 by lia.
    replace 8 with (k + (8 - k)) at 2 by lia.
    replace (value * 2 ^ (8 - k)) with (value * 2 ^ (8 - k) + 0) by lia.
    rewrite mod_pow2_shift by lia. rewrite Hzero. lia. }
  rewrite Hpadz. cbn [Z.eqb negb bind]. rewrite Heq.
  now rewrite bytes_of_values.
Qed.

End Bip173Facts.

Module Bip173Checksum.
Import Bip173 Bip173Spec Bip173Facts.
Local Open Scope Z_scope.

Lemma generator_lxor (b b' i g : Z) :
  generator (Z.lxor b b') i g = Z.lxor (generator b i g) (generator b' i g).
Proof.
  unfold generator. rewrite Z.lxor_spec.
  destruct (Z.testbit b i), (Z.testbit b' i); cbn [xorb].
  - now rewrite Z.lxor_nilpotent.
  - now rewrite Z.lxor_0_r.
  - now rewrite Z.lxor_0_l.
  - reflexivity.
Qed.

Lemma lxor_interchange (a b c d : Z) :
  Z.lxor (Z.lxor a b) (Z.lxor c d) = Z.lxor (Z.lxor a c) (Z.lxor b d).
Proof.
  rewrite !Z.lxor_assoc. f_equal.
  rewrite <- !Z.lxor_assoc. f_equal. apply Z.lxor_comm.
Qed.

Lemma land_lxor_distr (a b c : Z) :
  Z.land (Z.lxor a b) c = Z.lxor (Z.land a c) (Z.land b c).
Proof.
  apply Z.bits_inj'. intros n _.
  rewrite Z.land_spec, !Z.lxor_spec, !Z.land_spec.
  now destruct (Z.testbit a n), (Z.testbit b n), (Z.testbit c n).
Qed.

(** The checksum step is linear over exclusive or. *)
Lemma polymodStep_lxor (a b : Z) :
  polymodStep (Z.lxor a b) = Z.lxor (polymodStep a) (polymodStep b).
Proof.
  unfold polymodStep.
  rewrite Z.shiftr_lxor, !generator_lxor.
  rewrite land_lxor_distr, Z.shiftl_lxor.
  rewrite (lxor_interchange (generator _ 3 _)).
  rewrite (lxor_interchange (generator _ 2 _)).
  rewrite (lxor_interchange (generator _ 1 _)).
  rewrite (lxor_interchange (generator _ 0 _)).
  apply lxor_interchange.
Qed.

Lemma absorb_lxor (vs : list Z) (a b : Z) :
  fold_left absorb vs (Z.lxor a b)
  = Z.lxor (Nat.iter (length vs) polymodStep a) (fold_left absorb vs b).
Proof.
  revert a b. induction vs as [|v vs IH]; intros a b; [reflexivity|].
  cbn [fold_left length]. rewrite Nat.iter_succ_r, <- IH. f_equal.
  unfold absorb. now rewrite polymodStep_lxor, Z.lxor_assoc.
Qed.

Lemma polymodStep_small (x : Z) : 0 <= x < 2 ^ 25 -> polymodStep x = Z.shiftl x 5.
Proof.
  intros Hx. unfold polymodStep.
  rewrite Z.shiftr_div_pow2, Z.div_small by lia.
  unfold generator. rewrite !Z.bits_0, !Z.lxor_0_r.
  change 33554431 with (Z.ones 25).
  now rewrite Z.land_ones, Z.mod_small by lia.
Qed.

Lemma absorb_small (x v : Z) :
  0 <= x < 2 ^ 25 -> 0 <= v < 2 ^ 5 -> absorb x v = x * 32 + v.
Proof.
  intros Hx Hv. unfold absorb.
  rewrite polymodStep_small, lxor_shiftl_add by lia. reflexivity.
Qed.

(** Read as a checksum from the initial state 0, the six checksum words of
    [m] give [m] back. *)
Lemma absorb_checksumWords (m : Z) :
  0 <= m < 2 ^ 30 -> fold_left absorb (checksumWords m) 0 = m.
Proof.
  intros Hm.
  assert (Hwords : checksumWords m =
                   [(m / 2 ^ 25) mod 32; (m / 2 ^ 20) mod 32; (m / 2 ^ 15) mod 32;
                    (m / 2 ^ 10) mod 32; (m / 2 ^ 5) mod 32; (m / 2 ^ 0) mod 32]).
  { unfold checksumWords. cbn [map]. change 31 with (Z.ones 5).
    rewrite !Z.land_ones, !Z.shiftr_div_pow2 by lia. reflexivity. }
  rewrite Hwords. clear Hwords.
  change (2 ^ 0) with 1. change (2 ^ 5) with 32. change (2 ^ 10) with 1024.
  change (2 ^ 15) with 32768. change (2 ^ 20) with 1048576.
  change (2 ^ 25) with 33554432. change (2 ^ 30) with 1073741824 in Hm.
  pose proof (Z.mod_pos_bound (m / 33554432) 32) as H5.
  pose proof (Z.mod_pos_bound (m / 1048576) 32) as H4.
  pose proof (Z.mod_pos_bound (m / 32768) 32) as H3.
  pose proof (Z.mod_pos_bound (m / 1024) 32) as H2.
  pose proof (Z.mod_pos_bound (m / 32) 32) as H1.
  pose proof (Z.mod_pos_bound (m / 1) 32) as H0.
  assert (Hsum : (((((m / 33554432) mod 32 * 32 + (m / 1048576) mod 32) * 32
                    + (m / 32768) mod 32) * 32 + (m / 1024) mod 32) * 32
                  + (m / 32) mod 32) * 32 + (m / 1) mod 32 = m)
    by (Z.div_mod_to_equations; lia).
  set (d5 := (m / 33554432) mod 32) in *. set (d4 := (m / 1048576) mod 32) in *.
  set (d3 := (m / 32768) mod 32) in *. set (d2 := (m / 1024) mod 32) in *.
  set (d1 := (m / 32) mod 32) in *. set (d0 := (m / 1) mod 32) in *.
  cbn [fold_left].
  change (2 ^ 25) with 33554432 in *.
  rewrite (absorb_small 0 d5) by (change (2 ^ 25) with 33554432; change (2 ^ 5) with 32; lia).
  rewrite (absorb_small _ d4) by (change (2 ^ 25) with 33554432; change (2 ^ 5) with 32; lia).
  rewrite (absorb_small _ d3) by (change (2 ^ 25) with 33554432; change (2 ^ 5) with 32; lia).
  rewrite (absorb_small _ d2) by (change (2 ^ 25) with 33554432; change (2 ^ 5) with 32; lia).
  rewrite (absorb_small _ d1) by (change (2 ^ 25) with 33554432; change (2 ^ 5) with 32; lia).
  rewrite (absorb_small _ d0) by (change (2 ^ 25) with 33554432; change (2 ^ 5) with 32; lia).
  lia.
Qed.

Lemma lxor_lt_pow2 (a b n : Z) :
  0 < n -> 0 <= a < 2 ^ n -> 0 <= b < 2 ^ n -> 0 <= Z.lxor a b < 2 ^ n.
Proof.
  intros Hn Ha Hb.
  assert (Hnonneg : 0 <= Z.lxor a b) by (apply Z.lxor_nonneg; lia).
  split; [assumption|].
  destruct (Z.eq_dec (Z.lxor a b) 0) as [->|Hne]; [lia|].
  apply Z.log2_lt_pow2; [lia|].
  eapply Z.le_lt_trans; [apply Z.log2_lxor; lia|].
  assert (Hlog : forall x, 0 <= x < 2 ^ n -> Z.log2 x < n).
  { intros x Hx. destruct (Z.eq_dec x 0) as [->|Hx0]; [cbn; lia|].
    apply Z.log2_lt_pow2; lia. }
  apply Z.max_lub_lt; now apply Hlog.
Qed.

Lemma generator_bound (b i g : Z) :
  0 <= g < 2 ^ 30 -> 0 <= generator b i g < 2 ^ 30.
Proof. intros Hg. unfold generator. destruct (Z.testbit b i); lia. Qed.

Lemma polymodStep_bound (x : Z) : 0 <= polymodStep x < 2 ^ 30.
Proof.
  unfold polymodStep.
  repeat (apply lxor_lt_pow2; [lia | |]); try (apply generator_bound; lia).
  change 33554431 with (Z.ones 25).
  rewrite Z.land_ones, Z.shiftl_mul_pow2 by lia.
  pose proof (Z.mod_pos_bound x (2 ^ 25)). lia.
Qed.

(** The checksum that [encode] appends brings the state to 1. *)
Theorem checksum_valid (words : list Z) (chk : Z) :
  let c := fold_left absorb words chk in
  fold_left absorb
    (words ++ checksumWords (Z.lxor (Nat.iter 6 polymodStep c) 1)) chk = 1.
Proof.
  intros c. rewrite fold_left_app. fold c.
  set (m := Z.lxor (Nat.iter 6 polymodStep c) 1).
  rewrite <- (Z.lxor_0_r c), absorb_lxor.
  change (length (checksumWords m)) with 6%nat.
  rewrite absorb_checksumWords.
  - unfold m. now rewrite <- Z.lxor_assoc, Z.lxor_nilpotent.
  - unfold m. apply lxor_lt_pow2; [lia | | lia].
    cbn [Nat.iter]. apply polymodStep_bound.
Qed.

End Bip173Checksum.

Module Bip173Roundtrip.
Import Bip173 Bip173Spec Bip173Facts Bip173Checksum.
Local Open Scope Z_scope.

Lemma wordOk_all (v : Z) : 0 <= v < 2 ^ 5 -> wordOk v = true.
Proof.
  intros Hv.
  assert (H : forallb wordOk (map Z.of_nat (seq 0 32)) = true)
    by (vm_compute; reflexivity).
  rewrite forallb_forall in H. apply H.
  apply in_map_iff. exists (Z.to_nat v). split; [lia|].
  apply in_seq. change (2 ^ 5) with 32 in Hv. lia.
Qed.

Lemma ALPHABET_MAP_alphabetChar (v : Z) :
  0 <= v < 2 ^ 5 -> ALPHABET_MAP (alphabetChar v) = Some v.
Proof.
  intros Hv. pose proof (wordOk_all v Hv) as H. unfold wordOk in H.
  apply andb_true_iff in H. destruct H as [H _].
  apply andb_true_iff in H. destruct H as [H _].
  destruct (ALPHABET_MAP (alphabetChar v)) as [v'|]; [|discriminate H].
  f_equal. now apply Z.eqb_eq.
Qed.

Lemma lowerChar_alphabetChar (v : Z) :
  0 <= v < 2 ^ 5 -> lowerChar (alphabetChar v) = alphabetChar v.
Proof.
  intros Hv. pose proof (wordOk_all v Hv) as H. unfold wordOk in H.
  apply andb_true_iff in H. destruct H as [H _].
  apply andb_true_iff in H. destruct H as [_ H].
  now apply Ascii.eqb_eq.
Qed.

Lemma alphabetChar_not_separator (v : Z) :
  0 <= v < 2 ^ 5 -> Ascii.eqb (alphabetChar v) "1" = false.
Proof.
  intros Hv. pose proof (wordOk_all v Hv) as H. unfold wordOk in H.
  apply andb_true_iff in H. destruct H as [_ H].
  now apply negb_true_iff.
Qed.

Lemma digits_checksumWords (m : Z) : digits 5 (checksumWords m).
Proof.
  unfold checksumWords. apply Forall_forall. intros x Hin.
  apply in_map_iff in Hin. destruct Hin as (i & <- & _).
  change 31 with (Z.ones 5). rewrite Z.land_ones by lia.
  apply Z.mod_pos_bound. lia.
Qed.

Lemma encodeWord_fold (words : list Z) (chk : Z) (out : list ascii) :
  digits 5 words ->
  fold_left encodeWord words (Ok (chk, out))
  = Ok (fold_left absorb words chk, out ++ map alphabetChar words).
Proof.
  intros Hw. revert chk out.
  induction Hw as [|x words Hx Hw IH]; intros chk out.
  - cbn. now rewrite app_nil_r.
  - cbn [fold_left map]. unfold encodeWord at 2. cbn [bind].
    rewrite Z.shiftr_div_pow2, Z.div_small by lia.
    cbn [Z.eqb negb]. rewrite IH, <- app_assoc. reflexivity.
Qed.

Lemma lastIndexOf_absent (c : ascii) (l : list ascii) (i : nat) (found : option nat) :
  forallb (fun x => negb (Ascii.eqb x c)) l = true ->
  lastIndexOf c l i found = found.
Proof.
  revert i found. induction l as [|x l IH]; intros i found Hl; [reflexivity|].
  cbn in Hl. apply andb_true_iff in Hl. destruct Hl as [Hx Hl].
  cbn [lastIndexOf]. apply negb_true_iff in Hx. rewrite Hx. now apply IH.
Qed.

Lemma lastIndexOf_separator (c : ascii) (l1 l2 : list ascii) (i : nat) (found : option nat) :
  forallb (fun x => negb (Ascii.eqb x c)) l1 = true ->
  forallb (fun x => negb (Ascii.eqb x c)) l2 = true ->
  lastIndexOf c (l1 ++ c :: l2) i found = Some (i + length l1)%nat.
Proof.
  revert i found. induction l1 as [|x l1 IH]; intros i found H1 H2.
  - cbn [app lastIndexOf length]. rewrite Ascii.eqb_refl, Nat.add_0_r.
    now apply lastIndexOf_absent.
  - cbn in H1. apply andb_true_iff in H1. destruct H1 as [Hx H1].
    cbn [app lastIndexOf length]. rewrite IH by assumption. f_equal. lia.
Qed.

Lemma readWords_checksum (ws : list Z) (chk : Z) (acc : list Z) :
  digits 5 ws -> length ws = 6%nat ->
  readWords (map alphabetChar ws) chk acc = Ok (fold_left absorb ws chk, acc).
Proof.
  intros Hws Hlen.
  destruct ws as [|v0 [|v1 [|v2 [|v3 [|v4 [|v5 [|]]]]]]]; try discriminate Hlen.
  repeat match goal with
         | H : digits _ (_ :: _) |- _ => inversion H; subst; clear H
         | H : Forall _ (_ :: _) |- _ => inversion H; subst; clear H
         end.
  cbn [map].
  do 6 (cbn [readWords length Nat.ltb Nat.leb];
        rewrite ALPHABET_MAP_alphabetChar by assumption).
  cbn [readWords fold_left]. unfold absorb. reflexivity.
Qed.

Lemma readWords_spec (ws cs : list Z) (chk : Z) (acc : list Z) :
  digits 5 ws -> digits 5 cs -> length cs = 6%nat ->
  readWords (map alphabetChar (ws ++ cs)) chk acc
  = Ok (fold_left absorb (ws ++ cs) chk, acc ++ ws).
Proof.
  intros Hws Hcs Hlen. revert chk acc.
  induction Hws as [|x ws Hx Hws IH]; intros chk acc.
  - cbn [app]. rewrite app_nil_r. now apply readWords_checksum.
  - cbn [app map readWords fold_left].
    rewrite ALPHABET_MAP_alphabetChar by assumption.
    replace (length (map alphabetChar (ws ++ cs)) <? 6)%nat with false.
    + rewrite IH, <- app_assoc. reflexivity.
    + symmetry. apply Nat.ltb_ge. rewrite length_map, length_app. lia.
Qed.

Lemma map_fixed {A : Type} (f : A -> A) (eqb : A -> A -> bool) (l : list A) :
  (forall x y, eqb x y = true -> x = y) ->
  forallb (fun x => eqb (f x) x) l = true -> map f l = l.
Proof.
  intros Heqb. induction l as [|x l IH]; intros Hl; [reflexivity|].
  cbn in Hl. apply andb_true_iff in Hl. destruct Hl as [Hx Hl].
  cbn [map]. now rewrite (Heqb _ _ Hx), IH.
Qed.

Lemma length_list_ascii (s : string) :
  length (list_ascii_of_string s) = String.length s.
Proof. induction s as [|c s IH]; cbn; [reflexivity | now rewrite IH]. Qed.

Lemma prefixOk_spec (prefix : list ascii) :
  prefixOk prefix = true ->
  (0 < length prefix)%nat /\
  map lowerChar prefix = prefix /\
  forallb (fun c => negb (Ascii.eqb c "1")) prefix = true /\
  exists chk, prefixChk prefix = Ok chk.
Proof.
  unfold prefixOk. intros H.
  apply andb_true_iff in H. destruct H as [H Hchk].
  apply andb_true_iff in H. destruct H as [H Hsep].
  apply andb_true_iff in H. destruct H as [Hlen Hlow].
  repeat split.
  - apply negb_true_iff, Nat.eqb_neq in Hlen. lia.
  - apply (map_fixed lowerChar Ascii.eqb); [|assumption].
    intros x y Hxy. now apply Ascii.eqb_eq.
  - assumption.
  - destruct (prefixChk prefix) as [chk|]; [now exists chk | discriminate Hchk].
Qed.

(** The characters that [encode] writes after the prefix. *)
Lemma words_chars (ws : list Z) :
  digits 5 ws ->
  map lowerChar (map alphabetChar ws) = map alphabetChar ws /\
  forallb (fun c => negb (Ascii.eqb c "1")) (map alphabetChar ws) = true.
Proof.
  induction 1 as [|x ws Hx Hws [IH1 IH2]]; [now split|].
  cbn [map forallb]. rewrite lowerChar_alphabetChar, IH1 by assumption.
  rewrite alphabetChar_not_separator, IH2 by assumption. now split.
Qed.

(** [decode] reads back what [encode] writes. *)
Lemma decode_encoded (pc : list ascii) (chk : Z) (words cs : list Z) :
  prefixOk pc = true -> prefixChk pc = Ok chk ->
  digits 5 words -> digits 5 cs -> length cs = 6%nat ->
  (length pc + 7 + length words <= 90)%nat ->
  fold_left absorb (words ++ cs) chk = 1 ->
  decode (string_of_list_ascii (pc ++ "1"%char :: map alphabetChar (words ++ cs)))
  = Ok (string_of_list_ascii pc, words).
Proof.
  intros Hok Hchk Hwords Hcs Hlen Hlimit Hsum.
  destruct (prefixOk_spec pc Hok) as (Hpos & Hlow & Hsep & _).
  assert (Hall : digits 5 (words ++ cs)) by (apply Forall_app; now split).
  destruct (words_chars (words ++ cs) Hall) as [Hlow' Hsep'].
  set (ws := map alphabetChar (words ++ cs)) in *.
  assert (Hlenws : length ws = (length words + 6)%nat)
    by (unfold ws; rewrite length_map, length_app; lia).
  unfold decode. rewrite list_ascii_of_string_of_list_ascii.
  assert (HlenE : length (pc ++ "1"%char :: ws) = (length pc + 1 + length ws)%nat)
    by (rewrite length_app; cbn [length]; lia).
  replace (length (pc ++ "1"%char :: ws) <? 8)%nat with false
    by (symmetry; apply Nat.ltb_ge; lia).
  replace (90 <? length (pc ++ "1"%char :: ws))%nat with false
    by (symmetry; apply Nat.ltb_ge; lia).
  assert (HlowE : map lowerChar (pc ++ "1"%char :: ws) = pc ++ "1"%char :: ws)
    by (rewrite map_app; cbn [map]; rewrite Hlow, Hlow'; reflexivity).
  rewrite HlowE, String.eqb_refl. cbn [negb andb].
  rewrite lastIndexOf_separator by assumption. cbn [Nat.add].
  destruct (length pc) as [|n] eqn:Hn; [lia|].
  assert (Hfirst : firstn (S n) (pc ++ "1"%char :: ws) = pc).
  { rewrite <- Hn, firstn_app, Nat.sub_diag, firstn_0, firstn_all. apply app_nil_r. }
  assert (Hskip : skipn (S (S n)) (pc ++ "1"%char :: ws) = ws).
  { rewrite skipn_app, Hn. replace (S (S n) - S n)%nat with 1%nat by lia.
    rewrite skipn_all2 by lia. reflexivity. }
  rewrite Hfirst, Hskip.
  replace (length ws <? 6)%nat with false by (symmetry; apply Nat.ltb_ge; lia).
  rewrite Hchk. cbn [bind]. unfold ws.
  rewrite (readWords_spec words cs chk []) by assumption. cbn [bind app].
  rewrite Hsum. reflexivity.
Qed.

(** [encode] succeeds within the length limit, and [decode] inverts it. *)
Theorem decode_encode (prefix : string) (words : list Z) :
  prefixOk (list_ascii_of_string prefix) = true ->
  digits 5 words ->
  (String.length prefix + 7 + length words <= 90)%nat ->
  exists s, encode prefix words = Ok s /\ decode s = Ok (prefix, words).
Proof.
  intros Hok Hwords Hlimit.
  destruct (prefixOk_spec _ Hok) as (_ & Hlow & _ & chk & Hchk).
  unfold encode.
  replace (90 <? Z.of_nat (String.length prefix) + 7 + Z.of_nat (length words))
    with false by (symmetry; apply Z.ltb_ge; lia).
  rewrite Hlow, Hchk. cbn [bind].
  rewrite encodeWord_fold by assumption. cbn [bind].
  set (cs := checksumWords _).
  eexists. split; [reflexivity|].
  rewrite <- !app_assoc. cbn [app]. rewrite <- map_app.
  rewrite (decode_encoded _ chk words cs); try assumption.
  - now rewrite string_of_list_ascii_of_string.
  - apply digits_checksumWords.
  - reflexivity.
  - now rewrite length_list_ascii.
  - apply checksum_valid.
Qed.

(** [Bech32.decode] inverts [Bech32.encode] on every byte array that fits
    the length limit. *)
Theorem Bech32_decode_encode (prefix : string) (data : bytes) :
  prefixOk (list_ascii_of_string prefix) = true ->
  (Z.of_nat (String.length prefix) + 7
   + (8 * Z.of_nat (length data) + 4) / 5 <= 90) ->
  exists s,
    Bech32_encode prefix data = Ok s /\ Bech32_decode s = Ok (prefix, data).
Proof.
  intros Hok Hlimit.
  destruct (Bip173Facts.fromWords_toWords data) as (words & Hto & Hfrom & Hdig & Hlen).
  destruct (decode_encode prefix words Hok Hdig) as (s & Henc & Hdec); [lia|].
  exists s. unfold Bip173.Bech32_encode, Bip173.Bech32_decode.
  rewrite Hto. cbn [bind]. split; [assumption|].
  rewrite Hdec. cbn [bind]. now rewrite Hfrom.
Qed.

End Bip173Roundtrip.

(** ** Properties of the codec *)

Section Claims.

Context {base64 : Base64} {bech32 : Bech32}.

(** The two slices the decoder takes of the data. *)
Local Abbreviation aminoPrefix data := (slice data 0 (Some pubkeyAminoPrefixLength)).
Local Abbreviation rest data := (slice data pubkeyAminoPrefixLength None).

(** The codec round trip, given that the imported codecs are lossless at
    the input: base64 decoding of the value gives [k], [Bech32.encode]
    returns a string [s], and [Bech32.decode] of [s] gives back the prefix
    and the data. *)
Lemma roundtrip_lossless (k : bytes) (p s : string) :
  length k = 33%nat ->
  In p validPubkeyPrefixes ->
  fromBase64 (toBase64 k) = Ok k ->
  Bech32_encode p (pubkeyAminoPrefixSecp256k1 ++ k) = Ok s ->
  Bech32_decode s = Ok (p, pubkeyAminoPrefixSecp256k1 ++ k) ->
  (let* bech := encodeBech32Pubkey {| type := secp256k1; value := toBase64 k |} p in
   decodeBech32Pubkey bech)
  = Ok {| type := secp256k1; value := toBase64 k |}.
Proof.
  intros Hlen Hp H64 Henc Hdec.
  unfold encodeBech32Pubkey. cbn [type value bind]. rewrite H64. cbn [bind].
  rewrite Henc. cbn [bind].
  now apply (decode_tagged_secp256k1 _ _ _ Hdec Hp k).
Qed.

(** C4. A bech32 string whose prefix is not cosmospub, cosmosvalconspub or
    cosmosvaloperpub is rejected with the message that lists these three,
    whatever its data is. *)
Theorem invalid_prefix_rejected (bech prefix : string) (data : bytes) :
  Bech32_decode bech = Ok (prefix, data) ->
  ~ In prefix ["cosmospub"; "cosmosvalconspub"; "cosmosvaloperpub"] ->
  decodeBech32Pubkey bech =
  Throw "Invalid bech32 prefix. Must be one of cosmospub, cosmosvalconspub, cosmosvaloperpub.".
Proof. intros Hdec Hnot. exact (decode_invalid_prefix _ _ _ Hdec Hnot). Qed.

(** C5. When the marker the decoder splits off equals a known constant
    and the length of the rest is not the one that algorithm requires, the
    decoder throws the length error naming the expected length and the
    algorithm; in particular for the secp256k1 or the ed25519 constant
    followed by a payload of any other length than 33, respectively 32. *)
Theorem wrong_payload_length_rejected (bech prefix : string) (data : bytes) :
  Bech32_decode bech = Ok (prefix, data) ->
  In prefix validPubkeyPrefixes ->
  (aminoPrefix data = pubkeyAminoPrefixSecp256k1 ->
   length (rest data) <> 33%nat ->
   decodeBech32Pubkey bech =
   Throw "Invalid rest data length. Expected 33 bytes (compressed secp256k1 pubkey).") /\
  (aminoPrefix data = pubkeyAminoPrefixEd25519 ->
   length (rest data) <> 32%nat ->
   decodeBech32Pubkey bech =
   Throw "Invalid rest data length. Expected 32 bytes (Ed25519 pubkey).") /\
  (aminoPrefix data = pubkeyAminoPrefixSr25519 ->
   length (rest data) <> 32%nat ->
   decodeBech32Pubkey bech =
   Throw "Invalid rest data length. Expected 32 bytes (Sr25519 pubkey).") /\
  (forall payload,
      data = pubkeyAminoPrefixSecp256k1 ++ payload ->
      length payload <> 33%nat ->
      decodeBech32Pubkey bech =
      Throw "Invalid rest data length. Expected 33 bytes (compressed secp256k1 pubkey).") /\
  (forall payload,
      data = pubkeyAminoPrefixEd25519 ++ payload ->
      length payload <> 32%nat ->
      decodeBech32Pubkey bech =
      Throw "Invalid rest data length. Expected 32 bytes (Ed25519 pubkey).").
Proof.
  intros Hdec Hp. rewrite slice_aminoPrefix, slice_rest.
  assert (Hs : firstn 5 data = pubkeyAminoPrefixSecp256k1 ->
               length (skipn 5 data) <> 33%nat ->
               decodeBech32Pubkey bech =
               Throw "Invalid rest data length. Expected 33 bytes (compressed secp256k1 pubkey).").
  { intros Hm Hlen. rewrite (decode_secp256k1 _ _ _ Hdec Hp Hm).
    now rewrite (proj2 (Nat.eqb_neq _ _) Hlen). }
  assert (He : firstn 5 data = pubkeyAminoPrefixEd25519 ->
               length (skipn 5 data) <> 32%nat ->
               decodeBech32Pubkey bech =
               Throw "Invalid rest data length. Expected 32 bytes (Ed25519 pubkey).").
  { intros Hm Hlen. rewrite (decode_ed25519 _ _ _ Hdec Hp Hm).
    now rewrite (proj2 (Nat.eqb_neq _ _) Hlen). }
  repeat split; try assumption.
  - intros Hm _. exact (decode_sr25519 _ _ _ Hdec Hp Hm).
  - intros payload -> Hlen. apply Hs.
    + now apply firstn_marker.
    + now rewrite skipn_marker.
  - intros payload -> Hlen. apply He.
    + now apply firstn_marker.
    + now rewrite skipn_marker.
Qed.

(** C6. When the marker the decoder splits off equals none of the three
    constants, the decoder throws the unsupported-type error, whose
    message ends with the hexadecimal text of that marker. *)
Theorem unknown_marker_rejected (bech prefix : string) (data : bytes) :
  Bech32_decode bech = Ok (prefix, data) ->
  In prefix validPubkeyPrefixes ->
  aminoPrefix data <> pubkeyAminoPrefixSecp256k1 ->
  aminoPrefix data <> pubkeyAminoPrefixEd25519 ->
  aminoPrefix data <> pubkeyAminoPrefixSr25519 ->
  decodeBech32Pubkey bech =
  Throw ("Unsupported Pubkey type. Amino prefix: " ++ Encoding.toHex (aminoPrefix data)).
Proof.
  rewrite slice_aminoPrefix. intros Hdec Hp H1 H2 H3.
  exact (decode_unknown _ _ _ Hdec Hp H1 H2 H3).
Qed.

(** C7. Encoding a pubkey whose tag is not secp256k1 throws the
    unsupported-type error, for every value and every prefix; so a
    successful encoding has the tag secp256k1. *)
Theorem encode_only_secp256k1 (pubkey : PubKey) (prefix : string) :
  (type pubkey <> secp256k1 ->
   encodeBech32Pubkey pubkey prefix = Throw "Unsupported pubkey type") /\
  (forall bech, encodeBech32Pubkey pubkey prefix = Ok bech ->
                type pubkey = secp256k1).
Proof.
  unfold encodeBech32Pubkey. destruct pubkey as [[| |] v]; cbn [type bind].
  - split; [congruence | reflexivity].
  - split; [reflexivity | discriminate].
  - split; [reflexivity | discriminate].
Qed.

(** For a secp256k1 pubkey whose value is the base64 text of the bytes
    [k], of any length, the encoder returns what [Bech32.encode] returns
    for the prefix and the secp256k1 constant followed by [k], be it a
    string or an error. *)
Lemma encode_no_length_check (v : string) (k : bytes) (prefix : string) :
  fromBase64 v = Ok k ->
  encodeBech32Pubkey {| type := secp256k1; value := v |} prefix =
  Bech32_encode prefix (pubkeyAminoPrefixSecp256k1 ++ k).
Proof.
  intros H64. unfold encodeBech32Pubkey. cbn [type value bind].
  now rewrite H64.
Qed.

(** C9. The decoder never returns a pubkey with tag sr25519.  The marker
    it compares is [data.slice(0, 5)], which equals the 4-byte sr25519
    constant only when [data] is that constant; the rest is then empty
    and the decoder throws the sr25519 length error. *)
Theorem sr25519_never_returned (bech : string) (pubkey : PubKey) :
  decodeBech32Pubkey bech = Ok pubkey ->
  type pubkey <> sr25519 /\
  (forall data,
      equal (slice data 0 (Some pubkeyAminoPrefixLength)) pubkeyAminoPrefixSr25519 = true
      <-> data = pubkeyAminoPrefixSr25519) /\
  length (slice pubkeyAminoPrefixSr25519 pubkeyAminoPrefixLength None) = 0%nat /\
  (forall bech' prefix,
      Bech32_decode bech' = Ok (prefix, pubkeyAminoPrefixSr25519) ->
      In prefix validPubkeyPrefixes ->
      decodeBech32Pubkey bech' =
      Throw "Invalid rest data length. Expected 32 bytes (Sr25519 pubkey).").
Proof.
  intros Hok. repeat split.
  - destruct (Bech32_decode bech) as [[prefix data]|msg] eqn:Hdec.
    + destruct (isCosmosPubkeyBech32Prefix prefix) eqn:Hp.
      * apply includes_spec in Hp.
        rewrite (decode_valid_prefix _ _ _ Hdec Hp) in Hok.
        destruct (equal (firstn 5 data) pubkeyAminoPrefixSecp256k1).
        { destruct (negb _); [discriminate|]. injection Hok as <-. discriminate. }
        destruct (equal (firstn 5 data) pubkeyAminoPrefixEd25519).
        { destruct (negb _); [discriminate|]. injection Hok as <-. discriminate. }
        destruct (equal (firstn 5 data) pubkeyAminoPrefixSr25519) eqn:Hsr;
          [|discriminate].
        apply equal_spec in Hsr. apply (proj1 (firstn_sr25519 _)) in Hsr.
        rewrite Hsr in Hok. discriminate Hok.
      * unfold decodeBech32Pubkey in Hok. rewrite Hdec in Hok. cbn [bind] in Hok.
        rewrite Hp in Hok. discriminate.
    + unfold decodeBech32Pubkey in Hok. rewrite Hdec in Hok. discriminate.
  - rewrite slice_aminoPrefix, equal_spec. apply firstn_sr25519.
  - rewrite slice_aminoPrefix, equal_spec. apply firstn_sr25519.
  - intros bech' prefix Hdec Hp.
    now apply (decode_sr25519 _ _ _ Hdec Hp).
Qed.

(** C10. On a payload shorter than the 5-byte marker length, the two
    slices stay within the array (the marker slice is the whole payload,
    the rest is empty) and the decoder throws: the sr25519 length error
    when the payload is the 4-byte sr25519 constant, the unsupported-type
    error otherwise. *)
Theorem short_payload_rejected (bech prefix : string) (data : bytes) :
  Bech32_decode bech = Ok (prefix, data) ->
  In prefix validPubkeyPrefixes ->
  (length data < 5)%nat ->
  slice data 0 (Some pubkeyAminoPrefixLength) = data /\
  slice data pubkeyAminoPrefixLength None = [] /\
  ((data = pubkeyAminoPrefixSr25519 /\
    decodeBech32Pubkey bech =
    Throw "Invalid rest data length. Expected 32 bytes (Sr25519 pubkey).") \/
   (data <> pubkeyAminoPrefixSr25519 /\
    decodeBech32Pubkey bech =
    Throw ("Unsupported Pubkey type. Amino prefix: " ++ Encoding.toHex data))).
Proof.
  intros Hdec Hp Hlen.
  assert (Hfirst : firstn 5 data = data) by (apply firstn_all2; lia).
  split; [now rewrite slice_aminoPrefix|].
  split; [rewrite slice_rest; apply skipn_all2; lia|].
  destruct (list_eq_dec Byte.byte_eq_dec data pubkeyAminoPrefixSr25519) as [Heq|Hne].
  - left. split; [assumption|].
    apply (decode_sr25519 _ _ _ Hdec Hp). now rewrite Hfirst.
  - right. split; [assumption|].
    rewrite <- Hfirst at 1.
    apply (decode_unknown _ _ _ Hdec Hp); rewrite Hfirst;
      try assumption; intros ->; cbn in Hlen; lia.
Qed.

End Claims.

(** The accepted prefixes meet what the reference [Bech32] needs of a
    prefix, and a 38-byte payload under any of them is within its length
    limit. *)
Lemma validPubkeyPrefixes_ok (p : string) :
  In p validPubkeyPrefixes ->
  Bip173Spec.prefixOk (list_ascii_of_string p) = true /\
  (Z.of_nat (String.length p) + 7 + (8 * 38 + 4) / 5 <= 90)%Z.
Proof.
  intros [<-|[<-|[<-|[]]]]; split; vm_compute; solve [reflexivity | discriminate].
Qed.

(** C1. Round trip for secp256k1: for every 33-byte key [k] and every
    accepted prefix [p], encoding the pubkey with tag secp256k1 and value
    (the base64 text of) [k] and decoding the result gives that pubkey
    back.  This holds for every implementation of the imported codecs that
    is lossless at the input, and, with no assumption, for the reference
    implementations, which are lossless and within the bech32 length limit
    on these inputs. *)
Theorem roundtrip_secp256k1 (k : bytes) (p : string) :
  length k = 33%nat ->
  In p validPubkeyPrefixes ->
  (forall (base64 : Base64) (bech32 : Bech32) (s : string),
      fromBase64 (toBase64 k) = Ok k ->
      Bech32_encode p (pubkeyAminoPrefixSecp256k1 ++ k) = Ok s ->
      Bech32_decode s = Ok (p, pubkeyAminoPrefixSecp256k1 ++ k) ->
      (let* bech := encodeBech32Pubkey (base64 := base64) (bech32 := bech32)
                      {| type := secp256k1; value := toBase64 k |} p in
       decodeBech32Pubkey bech)
      = Ok {| type := secp256k1; value := toBase64 k |}) /\
  (let* bech := encodeBech32Pubkey (base64 := rfc4648) (bech32 := bip173)
                  {| type := secp256k1; value := toBase64 k |} p in
   decodeBech32Pubkey bech)
  = Ok {| type := secp256k1; value := toBase64 k |}.
Proof.
  intros Hlen Hp. split.
  - intros base64 bech32 s H64 Henc Hdec.
    now apply (roundtrip_lossless k p s).
  - destruct (validPubkeyPrefixes_ok p Hp) as [Hok Hlimit].
    destruct (Bip173Roundtrip.Bech32_decode_encode p (pubkeyAminoPrefixSecp256k1 ++ k) Hok)
      as (s & Henc & Hdec).
    + rewrite length_app, Hlen. exact Hlimit.
    + apply (roundtrip_lossless k p s); try assumption.
      apply Rfc4648Facts.fromBase64_toBase64.
Qed.

(** ** The codec on concrete strings *)

(** C2. The tagged-binary round trip fails for sr25519: the string whose
    data is the sr25519 constant followed by a 32-byte key, under the
    accepted prefix cosmospub, is not decoded to an sr25519 pubkey but
    rejected as an unsupported type. *)
Theorem sr25519_tagged_binary_rejected :
  Bech32_decode sr25519Bech32
  = Ok ("cosmospub", pubkeyAminoPrefixSr25519 ++ repeat x00 32) /\
  decodeBech32Pubkey (base64 := rfc4648) (bech32 := bip173) sr25519Bech32
  = Throw "Unsupported Pubkey type. Amino prefix: 0dfb100500".
Proof.
  assert (Hdec : Bech32_decode sr25519Bech32
                 = Ok ("cosmospub", pubkeyAminoPrefixSr25519 ++ repeat x00 32))
    by (vm_compute; reflexivity).
  split; [exact Hdec|].
  apply (decode_tagged_sr25519 _ _ _ Hdec (or_introl eq_refl) x00 (repeat x00 31)).
  reflexivity.
Qed.

(** C3. The three markers do not share one length: the secp256k1 and
    ed25519 constants have 5 bytes, which is the length the decoder splits
    at, and the sr25519 constant has 4. *)
Theorem amino_marker_lengths :
  length pubkeyAminoPrefixSecp256k1 = 5%nat /\
  length pubkeyAminoPrefixEd25519 = 5%nat /\
  length pubkeyAminoPrefixSr25519 = 4%nat /\
  pubkeyAminoPrefixLength = 5%Z.
Proof. repeat split. Qed.

(** The secp256k1 and ed25519 constants do round-trip through the tagged
    binary form. *)
Example ed25519_tagged_binary_decoded :
  decodeBech32Pubkey (base64 := rfc4648) (bech32 := bip173) ed25519Bech32
  = Ok {| type := ed25519; value := toBase64 (repeat x00 32) |}.
Proof.
  assert (Hdec : Bech32_decode ed25519Bech32
                 = Ok ("cosmospub", pubkeyAminoPrefixEd25519 ++ repeat x00 32))
    by (vm_compute; reflexivity).
  now apply (decode_tagged_ed25519 _ _ _ Hdec (or_introl eq_refl) (repeat x00 32)).
Qed.

Example secp256k1_tagged_binary_decoded :
  decodeBech32Pubkey (base64 := rfc4648) (bech32 := bip173) testKeyBech32
  = Ok {| type := secp256k1; value := "A08EGB7ro1ORuFhjOnZcSgwYlpe0DSFjVNUIkNNQxwKQ" |}.
Proof.
  assert (Hdec : Bech32_decode testKeyBech32
                 = Ok ("cosmospub", pubkeyAminoPrefixSecp256k1 ++ testKey))
    by (vm_compute; reflexivity).
  now rewrite (decode_tagged_secp256k1 _ _ _ Hdec (or_introl eq_refl) testKey).
Qed.

Lemma roundtrip_secp256k1_witness :
  (let* bech := encodeBech32Pubkey (base64 := rfc4648) (bech32 := bip173)
                  {| type := secp256k1; value := toBase64 testKey |} "cosmospub" in
   decodeBech32Pubkey bech)
  = Ok {| type := secp256k1; value := toBase64 testKey |}.
Proof.
  apply (roundtrip_secp256k1 testKey "cosmospub").
  - reflexivity.
  - simpl; auto.
Defined.

Lemma invalid_prefix_rejected_witness :
  decodeBech32Pubkey (base64 := rfc4648) (bech32 := bip173) addressBech32 =
  Throw "Invalid bech32 prefix. Must be one of cosmospub, cosmosvalconspub, cosmosvaloperpub.".
Proof.
  apply (invalid_prefix_rejected (base64 := rfc4648) (bech32 := bip173)
           addressBech32 "cosmos"
           (valueOf [] (Encoding.fromHex "0d82b1e7c96dbfa42462fe612932e6bff111d51b"))).
  - vm_compute; reflexivity.
  - simpl. intros [H|[H|[H|[]]]]; discriminate H.
Defined.

Lemma wrong_payload_length_rejected_witness :
  decodeBech32Pubkey (base64 := rfc4648) (bech32 := bip173) shortKeyBech32 =
  Throw "Invalid rest data length. Expected 33 bytes (compressed secp256k1 pubkey).".
Proof.
  refine (proj1 (proj2 (proj2 (proj2
            (wrong_payload_length_rejected (base64 := rfc4648) (bech32 := bip173)
               shortKeyBech32 "cosmosvaloperpub"
               (pubkeyAminoPrefixSecp256k1 ++ repeat x00 32) _ _))))
            (repeat x00 32) eq_refl _).
  - vm_compute; reflexivity.
  - simpl; auto.
  - simpl; lia.
Defined.

Lemma unknown_marker_rejected_witness :
  decodeBech32Pubkey (base64 := rfc4648) (bech32 := bip173) unknownMarkerBech32 =
  Throw "Unsupported Pubkey type. Amino prefix: 0102030405".
Proof.
  apply (unknown_marker_rejected (base64 := rfc4648) (bech32 := bip173)
           unknownMarkerBech32 "cosmospub"
           ([x01; x02; x03; x04; x05] ++ repeat x00 33)).
  - vm_compute; reflexivity.
  - simpl; auto.
  - vm_compute; discriminate.
  - vm_compute; discriminate.
  - vm_compute; discriminate.
Defined.

Lemma encode_only_secp256k1_witness :
  encodeBech32Pubkey (base64 := rfc4648) (bech32 := bip173)
    {| type := ed25519; value := toBase64 (repeat x00 32) |} "cosmospub"
  = Throw "Unsupported pubkey type".
Proof.
  apply (proj1 (encode_only_secp256k1 (base64 := rfc4648) (bech32 := bip173)
                  {| type := ed25519; value := toBase64 (repeat x00 32) |} "cosmospub")).
  simpl; discriminate.
Defined.

Lemma encode_no_length_check_witness :
  encodeBech32Pubkey (base64 := rfc4648) (bech32 := bip173)
    {| type := secp256k1; value := "AAA=" |} "cosmospub"
  = Bech32_encode "cosmospub" (pubkeyAminoPrefixSecp256k1 ++ [x00; x00]).
Proof.
  apply (encode_no_length_check (base64 := rfc4648) (bech32 := bip173)
           "AAA=" [x00; x00] "cosmospub").
  vm_compute; reflexivity.
Defined.

Lemma sr25519_never_returned_witness :
  decodeBech32Pubkey (base64 := rfc4648) (bech32 := bip173) testKeyBech32
  = Ok {| type := secp256k1; value := toBase64 testKey |} /\
  type {| type := secp256k1; value := toBase64 testKey |} <> sr25519.
Proof.
  assert (H : decodeBech32Pubkey (base64 := rfc4648) (bech32 := bip173) testKeyBech32
              = Ok {| type := secp256k1; value := toBase64 testKey |})
    by (vm_compute; reflexivity).
  split; [exact H|].
  exact (proj1 (sr25519_never_returned (base64 := rfc4648) (bech32 := bip173)
                  testKeyBech32 {| type := secp256k1; value := toBase64 testKey |} H)).
Defined.

Lemma short_payload_rejected_witness :
  decodeBech32Pubkey (base64 := rfc4648) (bech32 := bip173) emptyBech32 =
  Throw "Unsupported Pubkey type. Amino prefix: ".
Proof.
  destruct (short_payload_rejected (base64 := rfc4648) (bech32 := bip173)
              emptyBech32 "cosmosvalconspub" []) as (_ & _ & [[H _]|[_ H]]).
  - vm_compute; reflexivity.
  - simpl; auto.
  - simpl; lia.
  - discriminate H.
  - exact H.
Defined.

(** ** Further properties of the two functions *)

Section Further.

Context {base64 : Base64} {bech32 : Bech32}.

(** A successful decoding, taken apart. *)
Lemma decode_success_inv (bech : string) (pubkey : PubKey) :
  decodeBech32Pubkey bech = Ok pubkey ->
  exists prefix data,
    Bech32_decode bech = Ok (prefix, data) /\
    In prefix validPubkeyPrefixes /\
    ((firstn 5 data = pubkeyAminoPrefixSecp256k1 /\
      length (skipn 5 data) = 33%nat /\
      pubkey = {| type := secp256k1; value := toBase64 (skipn 5 data) |}) \/
     (firstn 5 data = pubkeyAminoPrefixEd25519 /\
      length (skipn 5 data) = 32%nat /\
      pubkey = {| type := ed25519; value := toBase64 (skipn 5 data) |})).
Proof.
  intros Hok.
  destruct (Bech32_decode bech) as [[prefix data]|msg] eqn:Hdec;
    [|unfold decodeBech32Pubkey in Hok; rewrite Hdec in Hok; discriminate Hok].
  destruct (isCosmosPubkeyBech32Prefix prefix) eqn:Hp;
    [|unfold decodeBech32Pubkey in Hok; rewrite Hdec in Hok; cbn [bind] in Hok;
      rewrite Hp in Hok; discriminate Hok].
  apply includes_spec in Hp.
  exists prefix, data. split; [reflexivity|]. split; [assumption|].
  rewrite (decode_valid_prefix _ _ _ Hdec Hp) in Hok.
  destruct (equal (firstn 5 data) pubkeyAminoPrefixSecp256k1) eqn:Hs.
  { left. apply equal_spec in Hs.
    destruct (Nat.eqb_spec (length (skipn 5 data)) 33) as [Hlen|_];
      [|discriminate Hok].
    injection Hok as <-. now repeat split. }
  destruct (equal (firstn 5 data) pubkeyAminoPrefixEd25519) eqn:He.
  { right. apply equal_spec in He.
    destruct (Nat.eqb_spec (length (skipn 5 data)) 32) as [Hlen|_];
      [|discriminate Hok].
    injection Hok as <-. now repeat split. }
  destruct (equal (firstn 5 data) pubkeyAminoPrefixSr25519) eqn:Hsr;
    [|discriminate Hok].
  apply equal_spec in Hsr. apply (proj1 (firstn_sr25519 _)) in Hsr.
  rewrite Hsr in Hok. discriminate Hok.
Qed.

(** X1. The decoder succeeds exactly on the strings that [Bech32.decode]
    splits into an accepted prefix and either the secp256k1 constant
    followed by 33 bytes or the ed25519 constant followed by 32 bytes; the
    pubkey it returns has that tag and the base64 text of those bytes. *)
Theorem decode_success_iff (bech : string) (pubkey : PubKey) :
  decodeBech32Pubkey bech = Ok pubkey <->
  exists prefix payload,
    In prefix validPubkeyPrefixes /\
    ((Bech32_decode bech = Ok (prefix, pubkeyAminoPrefixSecp256k1 ++ payload) /\
      length payload = 33%nat /\
      pubkey = {| type := secp256k1; value := toBase64 payload |}) \/
     (Bech32_decode bech = Ok (prefix, pubkeyAminoPrefixEd25519 ++ payload) /\
      length payload = 32%nat /\
      pubkey = {| type := ed25519; value := toBase64 payload |})).
Proof.
  split.
  - intros Hok.
    destruct (decode_success_inv bech pubkey Hok)
      as (prefix & data & Hdec & Hp & [(Hm & Hlen & Hpk)|(Hm & Hlen & Hpk)]);
      exists prefix, (skipn 5 data); (split; [assumption|]);
      [left|right]; rewrite <- Hm, firstn_skipn; now repeat split.
  - intros (prefix & payload & Hp & [(Hdec & Hlen & ->)|(Hdec & Hlen & ->)]).
    + now apply (decode_tagged_secp256k1 _ _ _ Hdec Hp payload).
    + now apply (decode_tagged_ed25519 _ _ _ Hdec Hp payload).
Qed.

(** X2. Every outcome of the decoder is one of these: a pubkey tagged
    secp256k1 or ed25519; the error of [Bech32.decode], unchanged; the
    prefix error; one of the three length errors; the unsupported-type
    error with the hexadecimal text of the marker. *)
Theorem decode_outcomes (bech : string) :
  (exists pubkey, decodeBech32Pubkey bech = Ok pubkey /\
                  (type pubkey = secp256k1 \/ type pubkey = ed25519)) \/
  (exists msg, Bech32_decode bech = Throw msg /\
               decodeBech32Pubkey bech = Throw msg) \/
  decodeBech32Pubkey bech =
    Throw "Invalid bech32 prefix. Must be one of cosmospub, cosmosvalconspub, cosmosvaloperpub." \/
  decodeBech32Pubkey bech =
    Throw "Invalid rest data length. Expected 33 bytes (compressed secp256k1 pubkey)." \/
  decodeBech32Pubkey bech =
    Throw "Invalid rest data length. Expected 32 bytes (Ed25519 pubkey)." \/
  decodeBech32Pubkey bech =
    Throw "Invalid rest data length. Expected 32 bytes (Sr25519 pubkey)." \/
  (exists prefix data,
      Bech32_decode bech = Ok (prefix, data) /\
      decodeBech32Pubkey bech =
      Throw ("Unsupported Pubkey type. Amino prefix: "
             ++ Encoding.toHex (slice data 0 (Some pubkeyAminoPrefixLength)))).
Proof.
  destruct (Bech32_decode bech) as [[prefix data]|msg] eqn:Hdec.
  - destruct (in_dec string_dec prefix validPubkeyPrefixes) as [Hp|Hp].
    + rewrite (decode_valid_prefix _ _ _ Hdec Hp).
      destruct (equal (firstn 5 data) pubkeyAminoPrefixSecp256k1).
      { destruct (negb _); [tauto|]. left. eexists. split; [reflexivity|]. now left. }
      destruct (equal (firstn 5 data) pubkeyAminoPrefixEd25519).
      { destruct (negb _); [tauto|]. left. eexists. split; [reflexivity|]. now right. }
      destruct (equal (firstn 5 data) pubkeyAminoPrefixSr25519) eqn:Hsr.
      { apply equal_spec in Hsr. apply (proj1 (firstn_sr25519 _)) in Hsr.
        rewrite Hsr. cbn. tauto. }
      do 6 right. exists prefix, data. now rewrite slice_aminoPrefix.
    + rewrite (decode_invalid_prefix _ _ _ Hdec Hp). tauto.
  - right. left. exists msg. split; [reflexivity|].
    unfold decodeBech32Pubkey. now rewrite Hdec.
Qed.

(** X3. The result of the decoder does not depend on which accepted
    prefix the string carries: two strings with accepted prefixes and the
    same data decode alike. *)
Theorem decode_prefix_independent (bech1 bech2 prefix1 prefix2 : string) (data : bytes) :
  Bech32_decode bech1 = Ok (prefix1, data) ->
  Bech32_decode bech2 = Ok (prefix2, data) ->
  In prefix1 validPubkeyPrefixes ->
  In prefix2 validPubkeyPrefixes ->
  decodeBech32Pubkey bech1 = decodeBech32Pubkey bech2.
Proof.
  intros Hd1 Hd2 Hp1 Hp2.
  now rewrite (decode_valid_prefix _ _ _ Hd1 Hp1), (decode_valid_prefix _ _ _ Hd2 Hp2).
Qed.

(** X4. Two strings that decode to the same pubkey carry the same data,
    when base64 decoding gives back the bytes after the marker of each. *)
Theorem decode_injective (bech1 bech2 prefix1 prefix2 : string) (data1 data2 : bytes)
    (pubkey : PubKey) :
  Bech32_decode bech1 = Ok (prefix1, data1) ->
  Bech32_decode bech2 = Ok (prefix2, data2) ->
  decodeBech32Pubkey bech1 = Ok pubkey ->
  decodeBech32Pubkey bech2 = Ok pubkey ->
  fromBase64 (toBase64 (slice data1 pubkeyAminoPrefixLength None))
  = Ok (slice data1 pubkeyAminoPrefixLength None) ->
  fromBase64 (toBase64 (slice data2 pubkeyAminoPrefixLength None))
  = Ok (slice data2 pubkeyAminoPrefixLength None) ->
  data1 = data2.
Proof.
  rewrite !slice_rest. intros Hd1 Hd2 Hok1 Hok2 H1 H2.
  destruct (decode_success_inv _ _ Hok1) as (p1 & d1 & Hd1' & _ & Hc1).
  destruct (decode_success_inv _ _ Hok2) as (p2 & d2 & Hd2' & _ & Hc2).
  rewrite Hd1 in Hd1'. injection Hd1' as <- <-.
  rewrite Hd2 in Hd2'. injection Hd2' as <- <-.
  assert (Hrest : forall t1 t2,
             pubkey = {| type := t1; value := toBase64 (skipn 5 data1) |} ->
             pubkey = {| type := t2; value := toBase64 (skipn 5 data2) |} ->
             t1 = t2 /\ skipn 5 data1 = skipn 5 data2).
  { intros t1 t2 E1 E2.
    assert (Ht : t1 = t2) by (rewrite E1 in E2; congruence).
    assert (Hv : toBase64 (skipn 5 data1) = toBase64 (skipn 5 data2))
      by (rewrite E1 in E2; congruence).
    split; [assumption|]. rewrite Hv in H1. congruence. }
  rewrite <- (firstn_skipn 5 data1), <- (firstn_skipn 5 data2).
  destruct Hc1 as [(Hm1 & _ & E1)|(Hm1 & _ & E1)],
           Hc2 as [(Hm2 & _ & E2)|(Hm2 & _ & E2)];
    destruct (Hrest _ _ E1 E2) as [Ht Hr]; try discriminate Ht;
    now rewrite Hm1, Hm2, Hr.
Qed.

(** X5. The two slices the decoder takes partition the data, for data of
    any length: the marker slice followed by the rest is the data, and the
    marker slice has 5 bytes, or all of the data when it is shorter. *)
Theorem decoder_split_partition (data : bytes) :
  slice data 0 (Some pubkeyAminoPrefixLength)
    ++ slice data pubkeyAminoPrefixLength None = data /\
  length (slice data 0 (Some pubkeyAminoPrefixLength)) = Nat.min 5 (length data).
Proof.
  rewrite slice_aminoPrefix, slice_rest. split.
  - apply firstn_skipn.
  - apply length_firstn.
Qed.

(** X6. Decoding a secp256k1 string and encoding the result, under the
    same or another prefix, hands [Bech32.encode] the very data that
    [Bech32.decode] returned, when base64 decoding gives back the key
    bytes. *)
Theorem reencode_decoded_secp256k1 (bech prefix prefix' : string) (payload : bytes) :
  Bech32_decode bech = Ok (prefix, pubkeyAminoPrefixSecp256k1 ++ payload) ->
  In prefix validPubkeyPrefixes ->
  length payload = 33%nat ->
  fromBase64 (toBase64 payload) = Ok payload ->
  (let* pubkey := decodeBech32Pubkey bech in encodeBech32Pubkey pubkey prefix')
  = Bech32_encode prefix' (pubkeyAminoPrefixSecp256k1 ++ payload).
Proof.
  intros Hdec Hp Hlen H64.
  rewrite (decode_tagged_secp256k1 _ _ _ Hdec Hp payload eq_refl Hlen).
  cbn [bind]. unfold encodeBech32Pubkey. cbn [type value bind].
  now rewrite H64.
Qed.

(** X7. Every ed25519 string that the decoder accepts gives a pubkey that
    the encoder refuses: decoding it and encoding the result throws the
    unsupported-type error. *)
Theorem decoded_ed25519_not_encodable (bech prefix prefix' : string) (payload : bytes) :
  Bech32_decode bech = Ok (prefix, pubkeyAminoPrefixEd25519 ++ payload) ->
  In prefix validPubkeyPrefixes ->
  length payload = 32%nat ->
  (exists pubkey, decodeBech32Pubkey bech = Ok pubkey) /\
  (let* pubkey := decodeBech32Pubkey bech in encodeBech32Pubkey pubkey prefix')
  = Throw "Unsupported pubkey type".
Proof.
  intros Hdec Hp Hlen.
  rewrite (decode_tagged_ed25519 _ _ _ Hdec Hp payload eq_refl Hlen).
  split; [now eexists | reflexivity].
Qed.

(** X8. The encoder accepts a secp256k1 key of a wrong length, and the
    string it returns is one the decoder rejects with the secp256k1 length
    error (when [Bech32.decode] inverts [Bech32.encode] on it). *)
Theorem wrong_length_key_not_decodable (v : string) (k : bytes) (prefix s : string) :
  fromBase64 v = Ok k ->
  length k <> 33%nat ->
  In prefix validPubkeyPrefixes ->
  Bech32_encode prefix (pubkeyAminoPrefixSecp256k1 ++ k) = Ok s ->
  Bech32_decode s = Ok (prefix, pubkeyAminoPrefixSecp256k1 ++ k) ->
  encodeBech32Pubkey {| type := secp256k1; value := v |} prefix = Ok s /\
  decodeBech32Pubkey s =
  Throw "Invalid rest data length. Expected 33 bytes (compressed secp256k1 pubkey).".
Proof.
  intros H64 Hlen Hp Henc Hdec. split.
  - unfold encodeBech32Pubkey. cbn [type value bind]. now rewrite H64.
  - rewrite (decode_secp256k1 _ _ _ Hdec Hp) by now apply firstn_marker.
    rewrite skipn_marker by reflexivity.
    now rewrite (proj2 (Nat.eqb_neq _ _) Hlen).
Qed.

(** X10. For a secp256k1 pubkey whose value decodes to 33 bytes [k], the
    round trip returns the pubkey whose value is the base64 text of [k]:
    the value is rebuilt from the bytes, not copied from the input (when
    [Bech32.decode] inverts [Bech32.encode] on the string). *)
Theorem roundtrip_rebuilds_value (v : string) (k : bytes) (prefix s : string) :
  fromBase64 v = Ok k ->
  length k = 33%nat ->
  In prefix validPubkeyPrefixes ->
  Bech32_encode prefix (pubkeyAminoPrefixSecp256k1 ++ k) = Ok s ->
  Bech32_decode s = Ok (prefix, pubkeyAminoPrefixSecp256k1 ++ k) ->
  (let* bech := encodeBech32Pubkey {| type := secp256k1; value := v |} prefix in
   decodeBech32Pubkey bech)
  = Ok {| type := secp256k1; value := toBase64 k |}.
Proof.
  intros H64 Hlen Hp Henc Hdec.
  unfold encodeBech32Pubkey. cbn [type value bind]. rewrite H64. cbn [bind].
  rewrite Henc. cbn [bind].
  now apply (decode_tagged_secp256k1 _ _ _ Hdec Hp k).
Qed.

End Further.


Lemma decode_prefix_independent_witness :
  decodeBech32Pubkey (base64 := rfc4648) (bech32 := bip173) testKeyBech32
  = decodeBech32Pubkey (base64 := rfc4648) (bech32 := bip173) testKeyValconsBech32.
Proof.
  apply (decode_prefix_independent (base64 := rfc4648) (bech32 := bip173)
           testKeyBech32 testKeyValconsBech32 "cosmospub" "cosmosvalconspub"
           (pubkeyAminoPrefixSecp256k1 ++ testKey)).
  - vm_compute; reflexivity.
  - vm_compute; reflexivity.
  - simpl; auto.
  - simpl; auto.
Defined.

Lemma decode_injective_witness :
  pubkeyAminoPrefixSecp256k1 ++ testKey = pubkeyAminoPrefixSecp256k1 ++ testKey.
Proof.
  apply (decode_injective (base64 := rfc4648) (bech32 := bip173)
           testKeyBech32 testKeyBech32Upper "cosmospub" "cosmospub"
           (pubkeyAminoPrefixSecp256k1 ++ testKey)
           (pubkeyAminoPrefixSecp256k1 ++ testKey)
           {| type := secp256k1; value := toBase64 testKey |}).
  - vm_compute; reflexivity.
  - vm_compute; reflexivity.
  - vm_compute; reflexivity.
  - vm_compute; reflexivity.
  - vm_compute; reflexivity.
  - vm_compute; reflexivity.
Defined.

Lemma reencode_decoded_secp256k1_witness :
  (let* pubkey := decodeBech32Pubkey (base64 := rfc4648) (bech32 := bip173) testKeyBech32 in
   encodeBech32Pubkey pubkey "cosmosvalconspub")
  = Bech32_encode "cosmosvalconspub" (pubkeyAminoPrefixSecp256k1 ++ testKey).
Proof.
  apply (reencode_decoded_secp256k1 (base64 := rfc4648) (bech32 := bip173)
           testKeyBech32 "cosmospub" "cosmosvalconspub" testKey).
  - vm_compute; reflexivity.
  - simpl; auto.
  - reflexivity.
  - vm_compute; reflexivity.
Defined.

Lemma decoded_ed25519_not_encodable_witness :
  (let* pubkey := decodeBech32Pubkey (base64 := rfc4648) (bech32 := bip173) ed25519Bech32 in
   encodeBech32Pubkey pubkey "cosmospub")
  = Throw "Unsupported pubkey type".
Proof.
  apply (proj2 (decoded_ed25519_not_encodable (base64 := rfc4648) (bech32 := bip173)
                  ed25519Bech32 "cosmospub" "cosmospub" (repeat x00 32)
                  ltac:(vm_compute; reflexivity) ltac:(simpl; auto) ltac:(reflexivity))).
Defined.

Lemma wrong_length_key_not_decodable_witness :
  encodeBech32Pubkey (base64 := rfc4648) (bech32 := bip173)
    {| type := secp256k1; value := toBase64 (repeat x00 32) |} "cosmosvaloperpub"
  = Ok shortKeyBech32 /\
  decodeBech32Pubkey (base64 := rfc4648) (bech32 := bip173) shortKeyBech32 =
  Throw "Invalid rest data length. Expected 33 bytes (compressed secp256k1 pubkey).".
Proof.
  apply (wrong_length_key_not_decodable (base64 := rfc4648) (bech32 := bip173)
           (toBase64 (repeat x00 32)) (repeat x00 32) "cosmosvaloperpub" shortKeyBech32).
  - vm_compute; reflexivity.
  - simpl; lia.
  - simpl; auto.
  - vm_compute; reflexivity.
  - vm_compute; reflexivity.
Defined.


Lemma roundtrip_rebuilds_value_witness :
  (let* bech := encodeBech32Pubkey (base64 := rfc4648) (bech32 := bip173)
                  {| type := secp256k1;
                     value := "A08EGB7ro1ORuFhjOnZcSgwYlpe0DSFjVNUIkNNQxwKQ" |} "cosmospub" in
   decodeBech32Pubkey bech)
  = Ok {| type := secp256k1; value := toBase64 testKey |}.
Proof.
  apply (roundtrip_rebuilds_value (base64 := rfc4648) (bech32 := bip173)
           "A08EGB7ro1ORuFhjOnZcSgwYlpe0DSFjVNUIkNNQxwKQ" testKey "cosmospub" testKeyBech32).
  - vm_compute; reflexivity.
  - reflexivity.
  - simpl; auto.
  - vm_compute; reflexivity.
  - vm_compute; reflexivity.
Defined.

(** ** The length of the key in the encoder *)

(** The number of 5-bit words of the reference [toWords]. *)
Lemma toWords_length (data : bytes) :
  exists words,
    Bip173.toWords data = Ok words /\
    Z.of_nat (length words) = ((8 * Z.of_nat (length data) + 4) / 5)%Z.
Proof.
  destruct (Bip173Facts.toWords_spec data) as (words & j & Hto & _ & Hj & Hlen & _).
  exists words. split; [assumption|].
  apply Z.div_unique with (r := (4 - j)%Z); lia.
Qed.

(** The reference [Bech32.encode] refuses what would exceed 90
    characters. *)
Lemma Bech32_encode_limit (prefix : string) (data : bytes) :
  (90 < Z.of_nat (String.length prefix) + 7
        + (8 * Z.of_nat (length data) + 4) / 5)%Z ->
  Bip173.Bech32_encode prefix data = Throw "Exceeds length limit".
Proof.
  intros Hlimit. unfold Bip173.Bech32_encode.
  destruct (toWords_length data) as (words & Hto & Hlen).
  rewrite Hto. cbn [bind]. unfold Bip173.encode.
  rewrite Hlen. now rewrite (proj2 (Z.ltb_lt _ _) Hlimit).
Qed.

(** C8, as the code has it.  The encoder makes no check of its own on
    the length of the key [k]: for every [k] and accepted prefix [p] it
    returns what [Bech32.encode] returns for [p] and the secp256k1
    constant followed by [k].  With the reference codecs it therefore
    succeeds, on exactly that data, whenever the text stays within the 90
    characters of bech32 (the length of [p], 7, and the 5-bit words of
    the data), whatever the length of [k]; and beyond that it fails with
    the length error of [Bech32.encode]. *)
Theorem encode_length_unchecked (k : bytes) (p : string) :
  In p validPubkeyPrefixes ->
  (forall (base64 : Base64) (bech32 : Bech32) (v : string),
      fromBase64 v = Ok k ->
      encodeBech32Pubkey (base64 := base64) (bech32 := bech32)
        {| type := secp256k1; value := v |} p
      = Bech32_encode p (pubkeyAminoPrefixSecp256k1 ++ k)) /\
  ((Z.of_nat (String.length p) + 7
    + (8 * Z.of_nat (length (pubkeyAminoPrefixSecp256k1 ++ k)) + 4) / 5 <= 90)%Z ->
   exists s,
     encodeBech32Pubkey (base64 := rfc4648) (bech32 := bip173)
       {| type := secp256k1; value := toBase64 k |} p = Ok s /\
     Bech32_decode s = Ok (p, pubkeyAminoPrefixSecp256k1 ++ k)) /\
  ((90 < Z.of_nat (String.length p) + 7
         + (8 * Z.of_nat (length (pubkeyAminoPrefixSecp256k1 ++ k)) + 4) / 5)%Z ->
   encodeBech32Pubkey (base64 := rfc4648) (bech32 := bip173)
     {| type := secp256k1; value := toBase64 k |} p
   = Throw "Exceeds length limit").
Proof.
  intros Hp.
  assert (Href : encodeBech32Pubkey (base64 := rfc4648) (bech32 := bip173)
                   {| type := secp256k1; value := toBase64 k |} p
                 = Bip173.Bech32_encode p (pubkeyAminoPrefixSecp256k1 ++ k)).
  { apply (encode_no_length_check (base64 := rfc4648) (bech32 := bip173)).
    apply Rfc4648Facts.fromBase64_toBase64. }
  split; [|split].
  - intros base64 bech32 v H64. now apply encode_no_length_check.
  - intros Hlimit. rewrite Href.
    destruct (validPubkeyPrefixes_ok p Hp) as [Hok _].
    exact (Bip173Roundtrip.Bech32_decode_encode p _ Hok Hlimit).
  - intros Hlimit. rewrite Href. now apply Bech32_encode_limit.
Qed.

(** C8, as it was stated, fails: under cosmospub a key of 42 bytes is
    refused, for its length, where a key of 33 bytes is encoded. *)
Lemma encode_fails_on_long_key :
  In "cosmospub" validPubkeyPrefixes /\
  fromBase64 (toBase64 (repeat x00 42)) = Ok (repeat x00 42) /\
  encodeBech32Pubkey (base64 := rfc4648) (bech32 := bip173)
    {| type := secp256k1; value := toBase64 (repeat x00 42) |} "cosmospub"
  = Throw "Exceeds length limit" /\
  encodeBech32Pubkey (base64 := rfc4648) (bech32 := bip173)
    {| type := secp256k1; value := toBase64 (repeat x00 33) |} "cosmospub"
  = Ok "cosmospub1addwnpepqqqqqqqqqqqqqqqqqqqqqqqqqqqqqqqqqqqqqqqqqqqqqqqqqqqqq0evd7k".
Proof.
  split; [simpl; auto|].
  split; [vm_compute; reflexivity|].
  split; vm_compute; reflexivity.
Qed.

Lemma encode_length_unchecked_witness :
  exists s,
    encodeBech32Pubkey (base64 := rfc4648) (bech32 := bip173)
      {| type := secp256k1; value := toBase64 [x00; x00] |} "cosmospub" = Ok s /\
    Bech32_decode s = Ok ("cosmospub", pubkeyAminoPrefixSecp256k1 ++ [x00; x00]).
Proof.
  apply (proj1 (proj2 (encode_length_unchecked [x00; x00] "cosmospub"
                         ltac:(simpl; auto)))).
  vm_compute; discriminate.
Defined.
